(** * go-sumtype: exhaustiveness checking of type switches over sum types

    A shallow embedding of [pkg/sumtype/check.go] and [pkg/sumtype/analyzer.go]
    and the properties of the checker proved over it.

    analyzer.go holds two versions of the file. check.go is written against
    the first one, in which [checkSwitch] takes the file set and the package
    and returns an error to [run]; that version is the one embedded here.
    The second one differs in [run] and [findSumTypeDecls], which report
    through the analysis pass and return no error; its search for
    declarations in a file reads and recognises the lines in the same way,
    records the name only and returns what closing the file returns. Its
    functions are embedded in the module [V2].

    Conventions of the embedding:
    - a Go function that may panic returns a [Result]; a panic is a value
      [Panic msg] that every caller propagates (the package never recovers);
    - a Go [error] result is an [option error], [None] being [nil];
    - [[]byte] is [list ascii], a Go [string] is [string];
    - the packages the checker imports ([go/types], [go/ast], [go/token],
      [bufio], [regexp], [sort], [os]) are modelled by the fragment the checker
      touches, each in a module of the same name. *)

From Stdlib Require Import String Ascii.
From Stdlib Require Import List Bool Arith PeanoNat NArith Lia.
From Stdlib Require Import RelationClasses.
From Stdlib Require Import Sorting.Sorted Sorting.Permutation Sorting.Mergesort Orders.
From Stdlib Require DecimalString DecimalNat.
Import ListNotations.

Set Warnings "-register-all".

Local Open Scope string_scope.
Local Open Scope list_scope.

(** ** Panics *)

Inductive Result (A : Type) : Type :=
| Ok (a : A)
| Panic (msg : string).

Arguments Ok {A} a.
Arguments Panic {A} msg.

Definition bind {A B : Type} (r : Result A) (k : A -> Result B) : Result B :=
  match r with
  | Ok a => k a
  | Panic msg => Panic msg
  end.

Notation "x <- e ;; k" := (bind e (fun x => k))
  (at level 61, e at next level, right associativity).
Notation "' pat <- e ;; k" := (bind e (fun x => match x with pat => k end))
  (at level 61, pat pattern, e at next level, right associativity).

(** The messages of the run-time panics of Go the checker can run into. *)
Definition errInterfaceConversion : string := "interface conversion".
Definition errIndexOutOfRange : string := "index out of range".
Definition errNilDereference : string := "invalid memory address or nil pointer dereference".

(** ** go/token *)

Module token.

Definition Pos := nat.

Record Position := {
  Filename : string;
  Line : nat;
  Column : nat
}.

(** A file set, seen through its one method [Position]. *)
Definition FileSet := Pos -> Position.

End token.

(** ** go/types *)

Module types.

(** Types. A defined type carries its name, its underlying type and the
    names of the methods declared on it (on value or pointer receivers). *)
Inductive Ty : Type :=
| Basic (name : string)
| Interface (methods : list string)
| Named (name : string) (underlying : Ty) (methods : list string)
| Pointer (elem : Ty).

Fixpoint Underlying (t : Ty) : Ty :=
  match t with
  | Named _ u _ => Underlying u
  | _ => t
  end.

Fixpoint names_eqb (ms ns : list string) : bool :=
  match ms, ns with
  | [], [] => true
  | m :: ms', n :: ns' => String.eqb m n && names_eqb ms' ns'
  | _, _ => false
  end.

Fixpoint Ty_eqb (a b : Ty) : bool :=
  match a, b with
  | Basic n, Basic m => String.eqb n m
  | Interface ms, Interface ns => names_eqb ms ns
  | Named n u ms, Named m v ns =>
      String.eqb n m && Ty_eqb u v && names_eqb ms ns
  | Pointer e, Pointer f => Ty_eqb e f
  | _, _ => false
  end.

(** [types.Identical]: identity of types. *)
Definition Identical (a b : Ty) : bool := Ty_eqb a b.

Inductive ObjKind := TypeName | Var | Func | Const.

Record Object := {
  Kind : ObjKind;
  Name : string;
  Type_ : Ty;
  ObjPos : token.Pos
}.

(** A package and its scope: the package-level objects in declaration
    order. *)
Record Package := {
  PkgPath : string;
  Scope : list Object
}.

(** [pkg.Scope().Lookup(name)]; [None] is the nil object. *)
Definition Lookup (pkg : Package) (name : string) : option Object :=
  find (fun o => String.eqb (Name o) name) (Scope pkg).

(** [pkg.Scope().Names()]: every name of the scope, once. *)
Definition Names (pkg : Package) : list string :=
  nodup string_dec (map Name (Scope pkg)).

(** The methods declared on a type, and those an interface requires. *)
Definition declared (t : Ty) : list string :=
  match t with
  | Named _ _ ms => ms
  | _ => []
  end.

Definition required (iface : Ty) : list string :=
  match iface with
  | Interface ms => ms
  | _ => []
  end.

(** [types.Implements], on the value or a pointer to it: the declared
    methods of the type include the methods of the interface. *)
Definition Implements (t iface : Ty) : bool :=
  forallb (fun m => existsb (String.eqb m) (declared t)) (required iface).

End types.

(** ** go/ast *)

Module ast.

Inductive Expr : Type :=
| Ident (Name : string)
| BasicLit (Value : string)
| SelectorExpr (X : Expr) (Sel : string)
| StarExpr (X : Expr)
| CallExpr (Fun : Expr) (Args : list Expr)
| TypeAssertExpr (X : Expr) (Type_ : option Expr).

(** Statements. The [List] of a case clause is [None] for the nil slice of
    a default clause. *)
Inductive Stmt : Type :=
| AssignStmt (Lhs Rhs : list Expr)
| ExprStmt (X : Expr)
| ReturnStmt (Results : list Expr)
| BlockStmt (List : list Stmt)
| CaseClause (List : option (list Expr)) (Body : list Stmt).

Record TypeSwitchStmt := {
  Switch : token.Pos;
  Assign : Stmt;
  Body : list Stmt
}.

Record File := {
  FilePos : token.Pos;
  FileName : string
}.

End ast.

(** ** sort *)

Module StringOrder <: TotalLeBool.
Definition t := string.
Definition leb := String.leb.
Definition leb_total : forall x y, leb x y = true \/ leb y x = true :=
  String.leb_total.
End StringOrder.

Module StringSort := Sort StringOrder.

Module sort.
(** [sort.Strings]: increasing order of Go's [<] on strings, which
    compares byte by byte. *)
Definition Strings (l : list string) : list string := StringSort.sort l.
End sort.

(** ** analyzer.go: declarations *)

(** analyzer.go:27-36. The package is nil until [findSumTypeDecls] sets
    it. *)

Record sumTypeDecl := {
  Package : option types.Package;
  TypeName : string;
  Path : string;
  Line : nat
}.

(** Modelled from the spec: the type [sumTypeDef] is declared in another
    file of the package, which is not embedded here. Section 3 of the
    specification gives it a declaration, an interface type and an ordered
    set of variants; check.go reads the fields [Decl] and [Ty], and the
    variants as [types.Object]s. *)
Record sumTypeDef := {
  Decl : sumTypeDecl;
  Ty : types.Ty;
  Variants : list types.Object
}.

(** Modelled from the spec: the method [missing] of [sumTypeDef] is defined
    next to the type, in the file that is not embedded here. Section 4.4,
    step 4: [missing = variants - caseTypes], the set difference over type
    identity, in the order of the variants. *)
Definition missing (def : sumTypeDef) (tys : list types.Ty) : list types.Object :=
  filter (fun v => negb (existsb (types.Identical (types.Type_ v)) tys))
         (Variants def).

(** ** check.go *)

Record inexhaustiveError := {
  Pos : token.Position;
  Def : sumTypeDef;
  Missing : list types.Object
}.

(** check.go:28-35. *)
Definition Names (e : inexhaustiveError) : list string :=
  sort.Strings (map types.Name (Missing e)).

(** check.go:174-182. *)
Fixpoint findDef (defs : list sumTypeDef) (needle : types.Ty)
    : option sumTypeDef :=
  match defs with
  | [] => None
  | def :: rest =>
      if types.Identical (types.Underlying needle) (Ty def) then Some def
      else findDef rest needle
  end.

(** check.go:161-169. The assertions on the types of nodes that have no
    second result panic when they fail, and so does [Rhs[0]] on an empty
    slice. *)
Definition findTypeAssertExpr (swtch : ast.TypeSwitchStmt) : Result ast.Expr :=
  expr <- match ast.Assign swtch with
          | ast.AssignStmt _ rhs =>
              match rhs with
              | e :: _ => Ok e
              | [] => Panic errIndexOutOfRange
              end
          | ast.ExprStmt x => Ok x
          | _ => Panic errInterfaceConversion
          end ;;
  match expr with
  | ast.TypeAssertExpr x _ => Ok x
  | _ => Panic errInterfaceConversion
  end.

(** check.go:109-119; the loop with its two result variables. *)
Fixpoint switchVariants_loop (stmts : list ast.Stmt)
    (exprs : list ast.Expr) (hasDefault : bool)
    : Result (list ast.Expr * bool) :=
  match stmts with
  | [] => Ok (exprs, hasDefault)
  | ast.CaseClause None _ :: rest => switchVariants_loop rest exprs true
  | ast.CaseClause (Some l) _ :: rest =>
      switchVariants_loop rest (exprs ++ l) hasDefault
  | _ :: _ => Panic errInterfaceConversion
  end.

Definition switchVariants (swtch : ast.TypeSwitchStmt)
    : Result (list ast.Expr * bool) :=
  switchVariants_loop (ast.Body swtch) [] false.

(** check.go:129-136: the loop of [defaultClauseAlwaysPanics] that looks
    for the first default clause; it returns its body, [None] when [clause]
    is still nil at the end. *)
Fixpoint firstDefaultClause (stmts : list ast.Stmt)
    : Result (option (list ast.Stmt)) :=
  match stmts with
  | [] => Ok None
  | ast.CaseClause None body :: _ => Ok (Some body)
  | ast.CaseClause (Some _) _ :: rest => firstDefaultClause rest
  | _ :: _ => Panic errInterfaceConversion
  end.

(** check.go:128-156. *)
Definition defaultClauseAlwaysPanics (swtch : ast.TypeSwitchStmt)
    : Result bool :=
  clause <- firstDefaultClause (ast.Body swtch) ;;
  match clause with
  | None => Panic "switch statement has no default clause"
  | Some body =>
      match body with
      | [stmt] =>
          match stmt with
          | ast.ExprStmt (ast.CallExpr (ast.Ident name) _) =>
              Ok (String.eqb name "panic")
          | _ => Ok false
          end
      | _ => Ok false
      end
  end.

(** check.go:94-102: the loop of [missingVariantsInSwitch] over the case
    expressions. [obj.Type()] on the nil object of a failed lookup is a nil
    dereference. *)
Fixpoint variantTypes_loop (pkg : types.Package) (exprs : list ast.Expr)
    (variantTypes : list types.Ty) : Result (list types.Ty) :=
  match exprs with
  | [] => Ok variantTypes
  | expr :: rest =>
      match expr with
      | ast.StarExpr x =>
          match x with
          | ast.Ident name =>
              match types.Lookup pkg name with
              | Some obj =>
                  variantTypes_loop pkg rest (variantTypes ++ [types.Type_ obj])
              | None => Panic errNilDereference
              end
          | _ => Panic errInterfaceConversion
          end
      | _ => Panic "not a star expression"
      end
  end.

(** check.go:65-105. [defaultClauseAlwaysPanics] is called only when
    [hasDefault] holds, [&&] evaluating its right operand only then. *)
Definition missingVariantsInSwitch (pkg : types.Package)
    (defs : list sumTypeDef) (swtch : ast.TypeSwitchStmt)
    : Result (option sumTypeDef * list types.Object) :=
  asserted <- findTypeAssertExpr swtch ;;
  match asserted with
  | ast.SelectorExpr _ sel =>
      match types.Lookup pkg sel with
      | None => Panic "expected non nil obj"
      | Some obj =>
          let ty := types.Type_ obj in
          match findDef defs ty with
          | None => Ok (None, [])
          | Some def =>
              '(variantExprs, hasDefault) <- switchVariants swtch ;;
              catchAll <- (if hasDefault
                           then (p <- defaultClauseAlwaysPanics swtch ;; Ok (negb p))
                           else Ok false) ;;
              if catchAll then Ok (Some def, [])
              else
                variantTypes <- variantTypes_loop pkg variantExprs [] ;;
                Ok (Some def, missing def variantTypes)
          end
      end
  | _ => Panic "expected *ast.SelectExpr: *ast.SelectorExpr"
  end.

(** The errors the package hands to its caller: the error of check.go, the
    resolution failures of Section 4.2 of the specification, and the error
    of [os.Open]. *)
Inductive error : Type :=
| errInexhaustive (e : inexhaustiveError)
| errNotFound (decl : sumTypeDecl)
| errNotInterface (decl : sumTypeDecl)
| errOpen (path : string).

(** check.go:44-59. *)
Definition checkSwitch (fset : token.FileSet) (pkg : types.Package)
    (defs : list sumTypeDef) (swtch : ast.TypeSwitchStmt)
    : Result (option error) :=
  '(def, missing) <- missingVariantsInSwitch pkg defs swtch ;;
  if (0 <? List.length missing)%nat then
    match def with
    | Some d =>
        Ok (Some (errInexhaustive
                    {| Pos := fset (ast.Switch swtch);
                       Def := d;
                       Missing := missing |}))
    | None => Panic errNilDereference
    end
  else Ok None.

(** ** os, bytes, bufio, path/filepath, regexp *)

Module os.

(** What reading a file delivers: its bytes, and the error, if any, that
    a read reports after them in place of the end of the file. *)
Record File := {
  Content : list ascii;
  ReadErr : option string
}.

(** The file system: the files that can be opened, by path. *)
Definition FS := string -> option File.

Definition Open (fsys : FS) (path : string) : option File := fsys path.

End os.

Module bytes.

Fixpoint HasPrefix (s prefix : list ascii) : bool :=
  match prefix, s with
  | [], _ => true
  | p :: prefix', c :: s' => Ascii.eqb c p && HasPrefix s' prefix'
  | _ :: _, [] => false
  end.

End bytes.

Module bufio.

Definition MaxScanTokenSize : nat := 64 * 1024.

Inductive Err := ErrTooLong | ErrRead (msg : string).

Definition Error (e : Err) : string :=
  match e with
  | ErrTooLong => "bufio.Scanner: token too long"
  | ErrRead msg => msg
  end.

Record Scanner := {
  r : os.File;
  maxTokenSize : nat
}.

Definition NewScanner (f : os.File) : Scanner :=
  {| r := f; maxTokenSize := MaxScanTokenSize |}.

Definition newline : ascii := "010"%char.
Definition carriageReturn : ascii := "013"%char.

(** [dropCR] drops a terminal carriage return from the data. *)
Definition dropCR (data : list ascii) : list ascii :=
  match rev data with
  | c :: before => if Ascii.eqb c carriageReturn then rev before else data
  | [] => data
  end.

(** A scanner with the split function [ScanLines], run to its end: the
    tokens that the successive calls of [Scan] deliver, and the value of
    [Err] after the call that returns false. [cur] holds, in reverse, the
    bytes of the line being read. A line is a token when its end, a
    newline or the end of the input, is reached with fewer than
    [maxTokenSize] bytes buffered; otherwise the buffer has filled up
    before and the scanner has stopped with [ErrTooLong]. *)
Fixpoint scanLines (max : nat) (tail : option string)
    (data cur : list ascii) : list (list ascii) * option Err :=
  match data with
  | [] =>
      match cur with
      | [] => ([], option_map ErrRead tail)
      | _ :: _ =>
          if (max <=? List.length cur)%nat then ([], Some ErrTooLong)
          else ([dropCR (rev cur)], option_map ErrRead tail)
      end
  | c :: rest =>
      if Ascii.eqb c newline then
        if (max <=? List.length cur)%nat then ([], Some ErrTooLong)
        else
          let (tokens, err) := scanLines max tail rest [] in
          (dropCR (rev cur) :: tokens, err)
      else scanLines max tail rest (c :: cur)
  end.

Definition Lines (s : Scanner) : list (list ascii) * option Err :=
  scanLines (maxTokenSize s) (os.ReadErr (r s)) (os.Content (r s)) [].

End bufio.

Module filepath.

Definition separator : ascii := "/"%char.

Fixpoint dropSeparators (p : list ascii) : list ascii :=
  match p with
  | c :: p' => if Ascii.eqb c separator then dropSeparators p' else p
  | [] => []
  end.

Fixpoint lastElement (p : list ascii) : list ascii :=
  match p with
  | c :: p' => if Ascii.eqb c separator then [] else c :: lastElement p'
  | [] => []
  end.

(** [filepath.Base], on a path without volume name. *)
Definition Base (path : string) : string :=
  match path with
  | EmptyString => "."
  | _ =>
      let stripped := dropSeparators (rev (list_ascii_of_string path)) in
      match rev (lastElement stripped) with
      | [] => "/"
      | elem => string_of_list_ascii elem
      end
  end.

End filepath.

Module regexp.

(** The fragment of the syntax the package uses: a pattern anchored at
    both ends of the text, [^ item ... item $], whose items are literals
    and greedy repetitions of the classes [\s] and [\S], each item
    possibly a capturing group. *)
Inductive Class := Space | NonSpace.

(** [\s] is [[\t\n\f\r ]]. *)
Definition isSpace (c : ascii) : bool :=
  Ascii.eqb c "009"%char || Ascii.eqb c "010"%char || Ascii.eqb c "012"%char
  || Ascii.eqb c "013"%char || Ascii.eqb c " "%char.

Definition inClass (cls : Class) (c : ascii) : bool :=
  match cls with
  | Space => isSpace c
  | NonSpace => negb (isSpace c)
  end.

Inductive Atom :=
| Lit (l : list ascii)
| Star (cls : Class)
| Plus (cls : Class).

Inductive Item :=
| Plain (a : Atom)
| Group (a : Atom).

Definition Regexp := list Item.

Definition atom (it : Item) : Atom :=
  match it with Plain a | Group a => a end.

Definition capture (it : Item) (text : list ascii)
    (caps : list (list ascii)) : list (list ascii) :=
  match it with
  | Plain _ => caps
  | Group _ => caps ++ [text]
  end.

Fixpoint stripPrefix (l s : list ascii) : option (list ascii) :=
  match l, s with
  | [], _ => Some s
  | a :: l', c :: s' => if Ascii.eqb c a then stripPrefix l' s' else None
  | _ :: _, [] => None
  end.

(** The length of the longest prefix of [s] in the class. *)
Fixpoint runLength (cls : Class) (s : list ascii) : nat :=
  match s with
  | c :: s' => if inClass cls c then S (runLength cls s') else 0
  | [] => 0
  end.

(** Backtracking over the length of a repetition: [k n] is the match of
    the rest of the pattern after [n] characters; the longest repetition
    is tried first, then the shorter ones down to [min]. *)
Fixpoint attempt {R : Type} (k : nat -> option R) (min n : nat) : option R :=
  match k n with
  | Some r => Some r
  | None =>
      match n with
      | 0 => None
      | S n' => if (min <=? n')%nat then attempt k min n' else None
      end
  end.

(** Matching of the items against all of [s]; the match found is the one
    the leftmost-first semantics prefers. [caps] collects the texts of
    the groups. *)
Fixpoint matchItems (items : list Item) (s : list ascii)
    (caps : list (list ascii)) : option (list (list ascii)) :=
  match items with
  | [] =>
      match s with
      | [] => Some caps
      | _ :: _ => None
      end
  | it :: rest =>
      let after n :=
        matchItems rest (skipn n s) (capture it (firstn n s) caps) in
      match atom it with
      | Lit l =>
          match stripPrefix l s with
          | Some s' => matchItems rest s' (capture it l caps)
          | None => None
          end
      | Star cls => attempt after 0 (runLength cls s)
      | Plus cls =>
          if (1 <=? runLength cls s)%nat
          then attempt after 1 (runLength cls s)
          else None
      end
  end.

(** [FindSubmatch]: [None] is the nil slice of no match; the first element
    is the text of the whole match, which is the whole input. *)
Definition FindSubmatch (re : Regexp) (b : list ascii)
    : option (list (list ascii)) :=
  match matchItems re b [] with
  | Some caps => Some (b :: caps)
  | None => None
  end.

End regexp.

(** ** analyzer.go: the search for declarations *)

Definition marker : string := "//go-sumtype:decl".

(** [^//go-sumtype:decl\s+(\S+)\s*$] *)
Definition reParseSumTypeDecl : regexp.Regexp :=
  [ regexp.Plain (regexp.Lit (list_ascii_of_string marker));
    regexp.Plain (regexp.Plus regexp.Space);
    regexp.Group (regexp.Plus regexp.NonSpace);
    regexp.Plain (regexp.Star regexp.Space) ].

(** analyzer.go:155-161. *)
Definition parseSumTypeDecl (line : list ascii) : string :=
  match regexp.FindSubmatch reParseSumTypeDecl line with
  | None => EmptyString
  | Some caps =>
      if (List.length caps <? 2)%nat then EmptyString
      else string_of_list_ascii (nth 1 caps [])
  end.

(** analyzer.go:165-168. *)
Definition isSumTypeDecl (line : list ascii) : bool :=
  let variant1 := list_ascii_of_string (marker ++ " ")%string in
  let variant2 := list_ascii_of_string (marker ++ String "009"%char EmptyString)%string in
  bytes.HasPrefix line variant1 || bytes.HasPrefix line variant2.

(** analyzer.go:125-140: the loop of [sumTypeDeclSearch], over the lines
    the scanner delivers; [lineNum] and [decls] are the variables of the
    function. *)
Fixpoint sumTypeDeclSearch_loop (path : string) (lines : list (list ascii))
    (lineNum : nat) (decls : list sumTypeDecl) : list sumTypeDecl :=
  match lines with
  | [] => decls
  | line :: rest =>
      let lineNum := S lineNum in
      if negb (isSumTypeDecl line) then
        sumTypeDeclSearch_loop path rest lineNum decls
      else
        let ty := parseSumTypeDecl line in
        if (String.length ty =? 0)%nat then
          sumTypeDeclSearch_loop path rest lineNum decls
        else
          sumTypeDeclSearch_loop path rest lineNum
            (decls ++ [{| Package := None; TypeName := ty;
                          Path := path; Line := lineNum |}])
  end.

(** What a call leaves behind besides its results: the lines written to the
    standard logger. *)
Definition Log := list string.

(** The line [sumTypeDeclSearch] writes to the log for an error of the
    scanner. *)
Definition scanErrorLog (path : string) (e : bufio.Err) : string :=
  ("scan error reading '" ++ path ++ "': " ++ bufio.Error e)%string.

(** analyzer.go:115-148. *)
Definition sumTypeDeclSearch (fsys : os.FS) (path : string)
    : list sumTypeDecl * option error * Log :=
  match os.Open fsys path with
  | None => ([], Some (errOpen path), [])
  | Some f =>
      let (lines, err) := bufio.Lines (bufio.NewScanner f) in
      let decls := sumTypeDeclSearch_loop path lines 0 [] in
      match err with
      | Some e => (decls, None, [scanErrorLog path e])
      | None => (decls, None, [])
      end
  end.

Definition setPackage (pkg : types.Package) (d : sumTypeDecl) : sumTypeDecl :=
  {| Package := Some pkg; TypeName := TypeName d;
     Path := Path d; Line := Line d |}.

(** analyzer.go:91-111. [filesToPkg] lists the entries of the map in the
    order in which the range statement visits them. *)
Fixpoint findSumTypeDecls_loop (fsys : os.FS) (fset : token.FileSet)
    (filesToPkg : list (ast.File * types.Package))
    (decls : list sumTypeDecl) (log : Log)
    : list sumTypeDecl * option error * Log :=
  match filesToPkg with
  | [] => (decls, None, log)
  | (file, pkg) :: rest =>
      let pos := fset (ast.FilePos file) in
      let filename := token.Filename pos in
      if String.eqb (filepath.Base filename) "C" then
        findSumTypeDecls_loop fsys fset rest decls log
      else
        match sumTypeDeclSearch fsys filename with
        | (_, Some err, l) => ([], Some err, log ++ l)
        | (fileDecls, None, l) =>
            findSumTypeDecls_loop fsys fset rest
              (decls ++ map (setPackage pkg) fileDecls) (log ++ l)
        end
  end.

Definition findSumTypeDecls (fsys : os.FS) (fset : token.FileSet)
    (filesToPkg : list (ast.File * types.Package))
    : list sumTypeDecl * option error * Log :=
  findSumTypeDecls_loop fsys fset filesToPkg [] [].

(** ** The resolution of declarations *)

(** Modelled from the spec: variant discovery is done by a function of the
    package that is not embedded here. Section 4.2: every
    named concrete type visible in the scope of the declaration whose
    methods satisfy the contract of the interface is a variant, each one
    once. *)
Definition variantsOf (pkg : types.Package) (iface : types.Ty)
    : list types.Object :=
  flat_map
    (fun name =>
       match types.Lookup pkg name with
       | Some obj =>
           match types.Kind obj, types.Underlying (types.Type_ obj) with
           | types.TypeName, types.Interface _ => []
           | types.TypeName, _ =>
               if types.Implements (types.Type_ obj) iface then [obj] else []
           | _, _ => []
           end
       | None => []
       end)
    (types.Names pkg).

(** Modelled from the spec: the constructor of definitions is not embedded
    here. Sections 3 and 4.2: the declared name is looked up in the scope
    of the declaration; an absent name and a name that is no interface are
    resolution failures. *)
Definition newSumTypeDef (decl : sumTypeDecl) : sumTypeDef + error :=
  match Package decl with
  | None => inr (errNotFound decl)
  | Some pkg =>
      match types.Lookup pkg (TypeName decl) with
      | None => inr (errNotFound decl)
      | Some obj =>
          match types.Underlying (types.Type_ obj) with
          | types.Interface ms =>
              inl {| Decl := decl;
                     Ty := types.Interface ms;
                     Variants := variantsOf pkg (types.Interface ms) |}
          | _ => inr (errNotInterface decl)
          end
      end
  end.

(** Modelled from the spec: [findSumTypeDefs] is called by [run] and defined
    in the file that is not embedded here; [run] takes from it the
    definitions and the resolution failures, of which Section 7 has one for
    each offending declaration. *)
Fixpoint findSumTypeDefs (decls : list sumTypeDecl)
    : list sumTypeDef * list error :=
  match decls with
  | [] => ([], [])
  | decl :: rest =>
      let (defs, errs) := findSumTypeDefs rest in
      match newSumTypeDef decl with
      | inl def => (def :: defs, errs)
      | inr err => (defs, err :: errs)
      end
  end.

(** ** analyzer.go: run *)

(** analyzer.go:81-86: the loop of [run] over the switches; [switchToPkg]
    lists the entries of the map in the order in which the range statement
    visits them. *)
Fixpoint run_loop (fset : token.FileSet) (defs : list sumTypeDef)
    (switchToPkg : list (ast.TypeSwitchStmt * types.Package))
    : Result (option error) :=
  match switchToPkg with
  | [] => Ok None
  | (swtch, pkg) :: rest =>
      err <- checkSwitch fset pkg defs swtch ;;
      match err with
      | Some e => Ok (Some e)
      | None => run_loop fset defs rest
      end
  end.

(** analyzer.go:73-88: [run] from the results of [findSumTypeDefs] on. *)
Definition run_checks (fset : token.FileSet)
    (defs : list sumTypeDef) (errs : list error)
    (switchToPkg : list (ast.TypeSwitchStmt * types.Package))
    : Result (option error) :=
  if (List.length defs =? 0)%nat then
    if (List.length errs =? 0)%nat then Ok None
    else Ok (nth_error errs 0)
  else run_loop fset defs switchToPkg.

(** An analysis pass: the file set, the package, and the files and type
    switches the inspector visits, each list in the order in which [run]
    ranges over the map it has collected them in. *)
Record Pass := {
  Fset : token.FileSet;
  Pkg : types.Package;
  Files : list ast.File;
  Switches : list ast.TypeSwitchStmt
}.

(** analyzer.go:43-89. *)
Definition run (fsys : os.FS) (pass : Pass) : Result (option error) * Log :=
  let fileToPkg := map (fun f => (f, Pkg pass)) (Files pass) in
  let switchToPkg := map (fun s => (s, Pkg pass)) (Switches pass) in
  match findSumTypeDecls fsys (Fset pass) fileToPkg with
  | (_, Some err, log) => (Ok (Some err), log)
  | (decls, None, log) =>
      let (defs, errs) := findSumTypeDefs decls in
      (run_checks (Fset pass) defs errs switchToPkg, log)
  end.

(** ** Vocabulary of the statements *)

(** A case clause with types, as opposed to a default clause. *)
Definition typedCase (s : ast.Stmt) : Prop :=
  exists l body, s = ast.CaseClause (Some l) body.

Definition isDefaultClause (s : ast.Stmt) : bool :=
  match s with
  | ast.CaseClause None _ => true
  | _ => false
  end.

(** The switch without its default clauses. *)
Definition withoutDefault (swtch : ast.TypeSwitchStmt) : ast.TypeSwitchStmt :=
  {| ast.Switch := ast.Switch swtch;
     ast.Assign := ast.Assign swtch;
     ast.Body := filter (fun s => negb (isDefaultClause s)) (ast.Body swtch) |}.

(** The one shape of a default body that counts as always panicking. *)
Definition panicCall (body : list ast.Stmt) : Prop :=
  exists args,
    body = [ast.ExprStmt (ast.CallExpr (ast.Ident "panic") args)].

(** A case expression [missingVariantsInSwitch] can turn into a type: a
    star expression on the name of an object of the package. *)
Definition resolvable (pkg : types.Package) (expr : ast.Expr) : bool :=
  match expr with
  | ast.StarExpr (ast.Ident name) =>
      match types.Lookup pkg name with
      | Some _ => true
      | None => false
      end
  | _ => false
  end.

Definition isSelectorExpr (e : ast.Expr) : bool :=
  match e with
  | ast.SelectorExpr _ _ => true
  | _ => false
  end.

(** The switches the checker cannot interpret: the statement of the switch
    is no type assertion, the switched expression is no selector expression
    or selects no object of the package, or a case expression is not
    resolvable in a switch on a sum type whose cases have to be looked
    at. *)
Inductive uninterpretable (pkg : types.Package) (defs : list sumTypeDef)
    (swtch : ast.TypeSwitchStmt) : Prop :=
| badAssert : forall msg,
    findTypeAssertExpr swtch = Panic msg ->
    uninterpretable pkg defs swtch
| badSwitched : forall asserted,
    findTypeAssertExpr swtch = Ok asserted ->
    isSelectorExpr asserted = false ->
    uninterpretable pkg defs swtch
| badObject : forall x sel,
    findTypeAssertExpr swtch = Ok (ast.SelectorExpr x sel) ->
    types.Lookup pkg sel = None ->
    uninterpretable pkg defs swtch
| badCase : forall x sel obj def exprs hasDefault expr,
    findTypeAssertExpr swtch = Ok (ast.SelectorExpr x sel) ->
    types.Lookup pkg sel = Some obj ->
    findDef defs (types.Type_ obj) = Some def ->
    switchVariants swtch = Ok (exprs, hasDefault) ->
    hasDefault = false \/ defaultClauseAlwaysPanics swtch = Ok true ->
    In expr exprs ->
    resolvable pkg expr = false ->
    uninterpretable pkg defs swtch.

Definition tab : ascii := "009"%char.
Definition space : ascii := " "%char.

Definition isSpace (c : ascii) : Prop := regexp.isSpace c = true.
Definition nonSpace (c : ascii) : Prop := regexp.isSpace c = false.

(** The lines that declare a sum type, and the name they declare: the
    marker, a space or a tab, white space, the name, white space. *)
Definition declLine (line name : list ascii) : Prop :=
  exists c ws ws',
    line = list_ascii_of_string marker ++ c :: ws ++ name ++ ws'
    /\ (c = space \/ c = tab)
    /\ Forall isSpace ws
    /\ name <> [] /\ Forall nonSpace name
    /\ Forall isSpace ws'.

(** The characters of a Go identifier: letters, the underscore and digits;
    the bytes from 128 on may belong to the encoding of a letter. *)
Definition isLetter (c : ascii) : bool :=
  let n := nat_of_ascii c in
  ((65 <=? n) && (n <=? 90) || (97 <=? n) && (n <=? 122)
   || (n =? 95) || (128 <=? n))%nat.

Definition isDigit (c : ascii) : bool :=
  let n := nat_of_ascii c in ((48 <=? n) && (n <=? 57))%nat.

Definition isIdentifier (name : list ascii) : bool :=
  match name with
  | [] => false
  | c :: rest => isLetter c && forallb (fun d => isLetter d || isDigit d) rest
  end.

(** What [reParseSumTypeDecl] finds on a line, read from left to right
    without backtracking: the marker, the longest run of white space, the
    longest run of other characters, the longest run of white space, the
    end of the line. *)
Definition parseDirect (line : list ascii) : option (list (list ascii)) :=
  match regexp.stripPrefix (list_ascii_of_string marker) line with
  | None => None
  | Some s1 =>
      let n1 := regexp.runLength regexp.Space s1 in
      let s2 := skipn n1 s1 in
      let n2 := regexp.runLength regexp.NonSpace s2 in
      let s3 := skipn n2 s2 in
      if (1 <=? n1)%nat then
        if (1 <=? n2)%nat then
          match skipn (regexp.runLength regexp.Space s3) s3 with
          | [] => Some [firstn n2 s2]
          | _ :: _ => None
          end
        else None
      else None
  end.

(** The declaration the search makes of a name found on a line. *)
Definition declOf (path : string) (lineNum : nat) (name : list ascii)
    : sumTypeDecl :=
  {| Package := None; TypeName := string_of_list_ascii name;
     Path := path; Line := lineNum |}.

(** ** A package to run the checker on

    [[
    //go-sumtype:decl Shape
    type Shape interface { isShape() }
    type Circle struct{}; func (c *Circle) isShape() {}; func (c *Circle) Area() {}
    type Square struct{}; func (s *Square) isShape() {}
    type Figure Shape
    var current Shape; var figure Figure; var count int
    ]] *)

Module Sample.

Definition iface : types.Ty := types.Interface ["isShape"].
Definition shapeT : types.Ty := types.Named "Shape" iface [].
Definition circleT : types.Ty :=
  types.Named "Circle" (types.Basic "struct") ["isShape"; "Area"].
Definition squareT : types.Ty :=
  types.Named "Square" (types.Basic "struct") ["isShape"].
Definition figureT : types.Ty := types.Named "Figure" shapeT [].
Definition intT : types.Ty := types.Basic "int".

Definition obj (k : types.ObjKind) (name : string) (t : types.Ty)
    (pos : token.Pos) : types.Object :=
  {| types.Kind := k; types.Name := name; types.Type_ := t;
     types.ObjPos := pos |}.

Definition shape := obj types.TypeName "Shape" shapeT 10.
Definition square := obj types.TypeName "Square" squareT 30.
Definition circle := obj types.TypeName "Circle" circleT 20.
Definition figure := obj types.TypeName "Figure" figureT 40.

Definition pkg : types.Package :=
  {| types.PkgPath := "shapes";
     types.Scope :=
       [ shape; square; circle; figure;
         obj types.Var "current" shapeT 50;
         obj types.Var "figure" figureT 60;
         obj types.Var "count" intT 70 ] |}.

Definition decl (name : string) (line : nat) : sumTypeDecl :=
  {| Package := Some pkg; TypeName := name;
     Path := "shapes.go"; Line := line |}.

Definition shapeDef : sumTypeDef :=
  {| Decl := decl "Shape" 1; Ty := iface; Variants := [square; circle] |}.

Definition defs : list sumTypeDef := [shapeDef].

Definition fset : token.FileSet :=
  fun p => {| token.Filename := "shapes.go";
              token.Line := p; token.Column := 1 |}.

(** [switch v := x.sel.(type) { clauses }] at position [pos]. *)
Definition switchOn (pos : token.Pos) (sel : string)
    (clauses : list ast.Stmt) : ast.TypeSwitchStmt :=
  {| ast.Switch := pos;
     ast.Assign :=
       ast.AssignStmt [ast.Ident "v"]
         [ast.TypeAssertExpr (ast.SelectorExpr (ast.Ident "x") sel) None];
     ast.Body := clauses |}.

Definition caseOf (names : list string) : ast.Stmt :=
  ast.CaseClause
    (Some (map (fun n => ast.StarExpr (ast.Ident n)) names)) [].

Definition defaultPanic : ast.Stmt :=
  ast.CaseClause None
    [ast.ExprStmt
       (ast.CallExpr (ast.Ident "panic") [ast.BasicLit "unreachable"])].

Definition defaultReturn : ast.Stmt :=
  ast.CaseClause None [ast.ReturnStmt [ast.BasicLit "0"]].

Definition swCircle := switchOn 100 "current" [caseOf ["Circle"]].
Definition swBoth :=
  switchOn 110 "current" [caseOf ["Circle"]; caseOf ["Square"; "Circle"]].
Definition swCirclePanic :=
  switchOn 120 "current" [caseOf ["Circle"]; defaultPanic].
Definition swCircleReturn :=
  switchOn 130 "current" [caseOf ["Circle"]; defaultReturn].
Definition swFigure := switchOn 140 "figure" [caseOf ["Circle"]].
Definition swCount := switchOn 150 "count" [caseOf ["Circle"]].

(** [switch x.(type) { case *Circle: }]: the switched expression is an
    identifier. *)
Definition swIdent : ast.TypeSwitchStmt :=
  {| ast.Switch := 160;
     ast.Assign := ast.ExprStmt (ast.TypeAssertExpr (ast.Ident "x") None);
     ast.Body := [caseOf ["Circle"]] |}.

(** [switch v := x.current.(type) { case Circle: }]: a case without
    star. *)
Definition swNoStar :=
  switchOn 170 "current" [ast.CaseClause (Some [ast.Ident "Circle"]) []].

Definition lines (ls : list string) : list ascii :=
  flat_map (fun l => list_ascii_of_string l ++ [bufio.newline]) ls.

Definition file (content : list ascii) : os.File :=
  {| os.Content := content; os.ReadErr := None |}.

Definition source : list string :=
  [ "package shapes";
    EmptyString;
    "//go-sumtype:decl Shape";
    "type Shape interface { isShape() }" ].

Definition sourceUnknown : list string :=
  source ++ [ "//go-sumtype:decl Polygon" ].

Definition longLine : list ascii :=
  repeat "a"%char bufio.MaxScanTokenSize.

Definition sourceLong : list ascii :=
  concat (map (fun l => l ++ [bufio.newline])
              (map list_ascii_of_string source))
  ++ longLine ++ lines ["//go-sumtype:decl Late"].

Definition sourceBare : list string :=
  [ "package shapes";
    "//go-sumtype:decl  ";
    "//go-sumtype:decl Shape" ].

Definition fsys : os.FS :=
  fun path =>
    if String.eqb path "shapes.go" then Some (file (lines source))
    else if String.eqb path "bare.go" then Some (file (lines sourceBare))
    else if String.eqb path "unknown.go" then Some (file (lines sourceUnknown))
    else if String.eqb path "long.go" then Some (file sourceLong)
    else None.

Definition astFile : ast.File :=
  {| ast.FilePos := 1; ast.FileName := "shapes" |}.

Definition fsetOf (path : string) : token.FileSet :=
  fun p => {| token.Filename := path; token.Line := p; token.Column := 1 |}.

Definition pass (path : string) (switches : list ast.TypeSwitchStmt) : Pass :=
  {| Fset := fsetOf path; Pkg := pkg;
     Files := [astFile]; Switches := switches |}.

End Sample.

(** ** The texts of errors and locations *)

Module strconv.
(** [strconv.Itoa], on a number that is not negative; [%d] prints the
    same. *)
Definition Itoa (n : nat) : string :=
  DecimalString.NilEmpty.string_of_uint (Nat.to_uint n).
End strconv.

Module strings.
(** [strings.Join]. *)
Fixpoint Join (elems : list string) (sep : string) : string :=
  match elems with
  | [] => EmptyString
  | [a] => a
  | a :: rest => (a ++ sep ++ Join rest sep)%string
  end.
End strings.

(** The method [String] of [token.Position], which [%s] prints. *)
Definition Position_String (pos : token.Position) : string :=
  let s := token.Filename pos in
  let s :=
    if (0 <? token.Line pos)%nat then
      let s := if String.eqb s EmptyString then s else (s ++ ":")%string in
      let s := (s ++ strconv.Itoa (token.Line pos))%string in
      if (token.Column pos =? 0)%nat then s
      else (s ++ ":" ++ strconv.Itoa (token.Column pos))%string
    else s in
  if String.eqb s EmptyString then "-" else s.

(** check.go:20-24. *)
Definition Error (e : inexhaustiveError) : string :=
  (Position_String (Pos e)
   ++ ": exhaustiveness check failed for sum type '"
   ++ TypeName (Decl (Def e))
   ++ "': missing cases for "
   ++ strings.Join (Names e) ", ")%string.

(** analyzer.go:39-41. *)
Definition Location (d : sumTypeDecl) : string :=
  (Path d ++ ":" ++ strconv.Itoa (Line d))%string.

(** ** Vocabulary of the further statements *)

(** The expressions of the clauses with types, in the order of the
    clauses. *)
Definition clauseExprs (stmts : list ast.Stmt) : list ast.Expr :=
  flat_map (fun s => match s with
                     | ast.CaseClause (Some l) _ => l
                     | _ => []
                     end) stmts.

Definition isCaseClause (s : ast.Stmt) : bool :=
  match s with
  | ast.CaseClause _ _ => true
  | _ => false
  end.

(** The type a case expression stands for in [missingVariantsInSwitch]. *)
Definition caseType (pkg : types.Package) (expr : ast.Expr)
    : option types.Ty :=
  match expr with
  | ast.StarExpr (ast.Ident name) =>
      option_map types.Type_ (types.Lookup pkg name)
  | _ => None
  end.

(** The lines of a file joined with an end of line. *)
Definition joinLines (eol : list ascii) (lines : list (list ascii))
    : list ascii :=
  List.concat (map (fun l => l ++ eol) lines).

Definition isDigitChar (c : ascii) : bool :=
  let n := nat_of_ascii c in ((48 <=? n) && (n <=? 57))%nat.

(** ** analyzer.go, second version

    The functions of the second version of the file that differ from the
    first: they report through the analysis pass. What they call and the
    file does not define, and what the operating system decides, is taken
    from an environment. *)

Module V2.

(** analyzer.go:195-202. *)
Record sumTypeDecl := {
  Package : option types.Package;
  TypeName : string;
  Pos : token.Pos
}.

(** A call of [pass.Reportf]: the position and the message. *)
Record Diagnostic := {
  DiagPos : token.Pos;
  Message : string
}.

Record Env := {
  (** the type [sumTypeDef] of this version *)
  Def : Type;
  (** [findSumTypeDefs(pass, decls)]: what it reports and returns *)
  findSumTypeDefs : list sumTypeDecl -> list Diagnostic * Result (list Def);
  (** [checkSwitch(pass, defs, swtch)]: what it reports *)
  checkSwitch : list Def -> ast.TypeSwitchStmt
                -> list Diagnostic * Result unit;
  (** the text of the error of [os.Open] on a path that cannot be opened *)
  openError : string -> string;
  (** the text of the error of [f.Close()], if it fails *)
  Close : os.File -> option string
}.

(** analyzer.go:292-305: the loop of [sumTypeDeclSearch]. *)
Fixpoint sumTypeDeclSearch_loop (lines : list (list ascii))
    (decls : list sumTypeDecl) : list sumTypeDecl :=
  match lines with
  | [] => decls
  | line :: rest =>
      if negb (isSumTypeDecl line) then sumTypeDeclSearch_loop rest decls
      else
        let ty := parseSumTypeDecl line in
        if (String.length ty =? 0)%nat then sumTypeDeclSearch_loop rest decls
        else
          sumTypeDeclSearch_loop rest
            (decls ++ [{| Package := None; TypeName := ty; Pos := 0 |}])
  end.

(** analyzer.go:282-313. The error is a text here, as [%v] prints it. *)
Definition sumTypeDeclSearch (env : Env) (fsys : os.FS) (path : string)
    : list sumTypeDecl * option string * Log :=
  match os.Open fsys path with
  | None => ([], Some (openError env path), [])
  | Some f =>
      let (lines, err) := bufio.Lines (bufio.NewScanner f) in
      let decls := sumTypeDeclSearch_loop lines [] in
      match err with
      | Some e => (decls, Close env f, [scanErrorLog path e])
      | None => (decls, Close env f, [])
      end
  end.

(** analyzer.go:265-274: the package and the position of a declaration. *)
Definition locate (file : ast.File) (pkg : types.Package)
    (d : sumTypeDecl) : sumTypeDecl :=
  {| Package := Some pkg;
     TypeName := TypeName d;
     Pos := match types.Lookup pkg (TypeName d) with
            | None => ast.FilePos file
            | Some obj => types.ObjPos obj
            end |}.

Definition readFailure (file : ast.File) (err : string) : Diagnostic :=
  {| DiagPos := ast.FilePos file;
     Message := ("unknown error reading file '" ++ ast.FileName file
                 ++ "': " ++ err)%string |}.

(** analyzer.go:249-278; [ftp] lists the entries of the map in the order
    in which the range statement visits them. *)
Fixpoint findSumTypeDecls_loop (env : Env) (fsys : os.FS)
    (fset : token.FileSet) (ftp : list (ast.File * types.Package))
    (decls : list sumTypeDecl) (reports : list Diagnostic) (log : Log)
    : list sumTypeDecl * list Diagnostic * Log :=
  match ftp with
  | [] => (decls, reports, log)
  | (file, pkg) :: rest =>
      let filename := token.Filename (fset (ast.FilePos file)) in
      if String.eqb (filepath.Base filename) "C" then
        findSumTypeDecls_loop env fsys fset rest decls reports log
      else
        match sumTypeDeclSearch env fsys filename with
        | (_, Some err, l) =>
            ([], reports ++ [readFailure file err],
             log ++ l ++ ["returning after sumTypeDeclSearch"])
        | (fileDecls, None, l) =>
            findSumTypeDecls_loop env fsys fset rest
              (decls ++ map (locate file pkg) fileDecls) reports (log ++ l)
        end
  end.

Definition findSumTypeDecls (env : Env) (fsys : os.FS)
    (fset : token.FileSet) (ftp : list (ast.File * types.Package))
    : list sumTypeDecl * list Diagnostic * Log :=
  findSumTypeDecls_loop env fsys fset ftp [] [] [].

(** analyzer.go:238-240: the loop of [run] over the switches, which are in
    a slice, in the order of the traversal. *)
Fixpoint run_loop (env : Env) (defs : list (Def env))
    (switches : list ast.TypeSwitchStmt) (reports : list Diagnostic)
    : list Diagnostic * Result unit :=
  match switches with
  | [] => (reports, Ok tt)
  | swtch :: rest =>
      match checkSwitch env defs swtch with
      | (rs, Ok _) => run_loop env defs rest (reports ++ rs)
      | (rs, Panic msg) => (reports ++ rs, Panic msg)
      end
  end.

(** analyzer.go:204-243: what [run] reports, what it logs, and the error
    it returns. *)
Definition run (env : Env) (fsys : os.FS) (pass : Pass)
    : list Diagnostic * Log * Result (option error) :=
  let filesToPkg := map (fun f => (f, Pkg pass)) (Files pass) in
  match findSumTypeDecls env fsys (Fset pass) filesToPkg with
  | (decls, reports, log) =>
      if (List.length decls =? 0)%nat then (reports, log, Ok None)
      else
        match findSumTypeDefs env decls with
        | (rs, Panic msg) => (reports ++ rs, log, Panic msg)
        | (rs, Ok defs) =>
            if (List.length defs =? 0)%nat then (reports ++ rs, log, Ok None)
            else
              match run_loop env defs (Switches pass) (reports ++ rs) with
              | (all, Ok _) => (all, log, Ok None)
              | (all, Panic msg) => (all, log, Panic msg)
              end
        end
  end.

End V2.

(** The declarations a file of the pass contributes: none for the
    pseudo file of cgo, else those of the search in the file, with the
    package of the file. *)
Definition declsOfFile (fsys : os.FS) (fset : token.FileSet)
    (fp : ast.File * types.Package) : list sumTypeDecl :=
  let filename := token.Filename (fset (ast.FilePos (fst fp))) in
  if String.eqb (filepath.Base filename) "C" then []
  else map (setPackage (snd fp)) (fst (fst (sumTypeDeclSearch fsys filename))).

(** The lines the regular expression matches, and the name it captures:
    the marker, white space, the name, white space. *)
Definition matchLine (line name : list ascii) : Prop :=
  exists ws ws',
    line = list_ascii_of_string marker ++ ws ++ name ++ ws'
    /\ ws <> [] /\ Forall isSpace ws
    /\ name <> [] /\ Forall nonSpace name
    /\ Forall isSpace ws'.

(** ** Files to run the search on *)

Module Sample2.

Definition sourceLines : list (list ascii) :=
  map list_ascii_of_string Sample.source.

(** The file system of [Sample] with a copy of [shapes.go] whose lines end
    in a carriage return and a newline. *)
Definition fsys : os.FS :=
  fun path =>
    if String.eqb path "dos.go"
    then Some (Sample.file
                 (joinLines [bufio.carriageReturn; bufio.newline]
                    sourceLines))
    else Sample.fsys path.

(** The files of a pass, told apart by their positions: [shapes.go], the
    file of cgo, a file that cannot be opened, and [unknown.go]. *)
Definition fset : token.FileSet :=
  fun p =>
    {| token.Filename :=
         if (p <? 1000)%nat then "shapes.go"
         else if (p <? 2000)%nat then "/tmp/go-build/C"
         else if (p <? 3000)%nat then "gone.go"
         else "unknown.go";
       token.Line := 1; token.Column := 1 |}.

Definition fileAt (pos : token.Pos) : ast.File :=
  {| ast.FilePos := pos; ast.FileName := "shapes" |}.

Definition fileShapes := fileAt 1.
Definition fileC := fileAt 1000.
Definition fileGone := fileAt 2000.
Definition fileUnknown := fileAt 3000.

Definition pass (files : list ast.File)
    (switches : list ast.TypeSwitchStmt) : Pass :=
  {| Fset := fset; Pkg := Sample.pkg;
     Files := files; Switches := switches |}.

(** An environment for the second version of analyzer.go, made of the
    check of the first: the definitions are those of the resolution, and a
    switch is reported with the text of its error. *)
Definition toDecl (d : V2.sumTypeDecl) : sumTypeDecl :=
  {| Package := V2.Package d; TypeName := V2.TypeName d;
     Path := EmptyString; Line := 0 |}.

Definition env : V2.Env :=
  {| V2.Def := sumTypeDef;
     V2.findSumTypeDefs :=
       fun decls => ([], Ok (fst (findSumTypeDefs (map toDecl decls))));
     V2.checkSwitch :=
       fun defs swtch =>
         match checkSwitch fset Sample.pkg defs swtch with
         | Ok (Some (errInexhaustive e)) =>
             ([{| V2.DiagPos := ast.Switch swtch; V2.Message := Error e |}],
              Ok tt)
         | Ok _ => ([], Ok tt)
         | Panic msg => ([], Panic msg)
         end;
     V2.openError :=
       fun path => ("open " ++ path ++ ": no such file or directory")%string;
     V2.Close := fun _ => None |}.

End Sample2.

(** * Properties *)

(** ** The result monad *)

Lemma bind_Ok {A B : Type} (a : A) (k : A -> Result B) :
  bind (Ok a) k = k a.
Proof. reflexivity. Qed.

Lemma bind_Panic {A B : Type} (msg : string) (k : A -> Result B) :
  bind (Panic msg) k = Panic msg.
Proof. reflexivity. Qed.

(** ** Case clauses and the default clause *)

Lemma switchVariants_loop_hasDefault stmts :
  forall exprs hasDefault exprs',
    switchVariants_loop stmts exprs hasDefault = Ok (exprs', true) ->
    hasDefault = true
    \/ exists body, firstDefaultClause stmts = Ok (Some body).
Proof.
  induction stmts as [|s stmts IH]; intros exprs hd exprs' H; simpl in H.
  - left. congruence.
  - destruct s as [| | | |[l|] body]; try discriminate.
    + destruct (IH _ _ _ H) as [->|[b Hb]]; [now left|].
      right. exists b. exact Hb.
    + right. exists body. reflexivity.
Qed.

Lemma switchVariants_loop_flag stmts :
  forall exprs hasDefault,
    switchVariants_loop stmts exprs hasDefault
    = match switchVariants_loop stmts exprs false with
      | Ok (exprs', hd) => Ok (exprs', hasDefault || hd)
      | Panic msg => Panic msg
      end.
Proof.
  induction stmts as [|s stmts IH]; intros exprs hd; simpl.
  - now rewrite orb_false_r.
  - destruct s as [| | | |[l|] body]; try reflexivity.
    + apply IH.
    + rewrite (IH exprs true).
      destruct (switchVariants_loop stmts exprs false) as [[e h]|m];
        [|reflexivity].
      simpl. now rewrite orb_true_r.
Qed.

Lemma switchVariants_loop_withoutDefault stmts :
  forall exprs hasDefault,
    switchVariants_loop (filter (fun s => negb (isDefaultClause s)) stmts)
      exprs hasDefault
    = match switchVariants_loop stmts exprs false with
      | Ok (exprs', _) => Ok (exprs', hasDefault)
      | Panic msg => Panic msg
      end.
Proof.
  induction stmts as [|s stmts IH]; intros exprs hd; simpl.
  - reflexivity.
  - destruct s as [| | | |[l|] body]; simpl; try reflexivity.
    + apply IH.
    + rewrite IH, (switchVariants_loop_flag stmts exprs true).
      now destruct (switchVariants_loop stmts exprs false) as [[e h]|m].
Qed.

Lemma firstDefaultClause_found pre body post :
  Forall typedCase pre ->
  firstDefaultClause (pre ++ ast.CaseClause None body :: post)
  = Ok (Some body).
Proof.
  induction 1 as [|s pre [l [b ->]] _ IH]; simpl; auto.
Qed.

Lemma firstDefaultClause_absent stmts :
  Forall typedCase stmts -> firstDefaultClause stmts = Ok None.
Proof.
  induction 1 as [|s pre [l [b ->]] _ IH]; simpl; auto.
Qed.

Lemma defaultClauseAlwaysPanics_body swtch body :
  firstDefaultClause (ast.Body swtch) = Ok (Some body) ->
  (defaultClauseAlwaysPanics swtch = Ok true /\ panicCall body)
  \/ (defaultClauseAlwaysPanics swtch = Ok false /\ ~ panicCall body).
Proof.
  intros H. unfold defaultClauseAlwaysPanics, panicCall.
  rewrite H, bind_Ok.
  destruct body as [|stmt [|stmt' body]];
    try (right; split; [reflexivity|intros [args Ha]; discriminate]).
  destruct stmt as [|x| | |];
    try (right; split; [reflexivity|intros [args Ha]; discriminate]).
  destruct x as [| | | |f args|];
    try (right; split; [reflexivity|intros [a Ha]; discriminate]).
  destruct f as [name| | | | |];
    try (right; split; [reflexivity|intros [a Ha]; discriminate]).
  destruct (String.eqb_spec name "panic") as [->|Hne].
  - left. split; [reflexivity|]. now exists args.
  - right. split; [reflexivity|]. intros [a Ha]. congruence.
Qed.

(** ** The order of [sort.Strings] *)

Lemma ascii_compare_refl a : Ascii.compare a a = Eq.
Proof. apply N.compare_refl. Qed.

Lemma string_compare_lt_trans a :
  forall b c,
    String.compare a b = Lt -> String.compare b c = Lt ->
    String.compare a c = Lt.
Proof.
  induction a as [|x a IH]; intros [|y b] [|z c]; simpl;
    try congruence; try discriminate.
  destruct (Ascii.compare x y) eqn:Exy; try discriminate.
  - apply Ascii.compare_eq_iff in Exy. subst y.
    destruct (Ascii.compare x z); try discriminate; eauto.
  - intros _.
    destruct (Ascii.compare y z) eqn:Eyz; try discriminate; intros _.
    + apply Ascii.compare_eq_iff in Eyz. subst z. now rewrite Exy.
    + unfold Ascii.compare in *.
      rewrite N.compare_lt_iff in Exy, Eyz.
      now rewrite (proj2 (N.compare_lt_iff _ _) (N.lt_trans _ _ _ Exy Eyz)).
Qed.

Lemma string_leb_trans :
  Transitive (fun a b : string => is_true (String.leb a b)).
Proof.
  intros a b c. unfold is_true, String.leb.
  destruct (String.compare a b) eqn:Eab; try discriminate; intros _.
  - apply String.compare_eq_iff in Eab. now subst b.
  - destruct (String.compare b c) eqn:Ebc; try discriminate; intros _.
    + apply String.compare_eq_iff in Ebc. subst c. now rewrite Eab.
    + now rewrite (string_compare_lt_trans _ _ _ Eab Ebc).
Qed.

Lemma Strings_In l n : In n (sort.Strings l) <-> In n l.
Proof.
  unfold sort.Strings. split; apply Permutation_in.
  - apply Permutation_sym, StringSort.Permuted_sort.
  - apply StringSort.Permuted_sort.
Qed.

Lemma Strings_NoDup l : NoDup l -> NoDup (sort.Strings l).
Proof.
  apply Permutation_NoDup, StringSort.Permuted_sort.
Qed.

Lemma Strings_sorted l :
  StronglySorted (fun a b => String.leb a b = true) (sort.Strings l).
Proof.
  exact (StringSort.StronglySorted_sort l string_leb_trans).
Qed.

Lemma Strings_increasing l :
  NoDup l ->
  StronglySorted (fun a b => String.ltb a b = true) (sort.Strings l).
Proof.
  intros Hl. apply Strings_NoDup in Hl.
  pose proof (Strings_sorted l) as Hs.
  induction Hs as [|a m Hs IH Hall]; constructor.
  - apply IH. now inversion Hl.
  - inversion Hl as [|? ? Hnotin Hm]; subst.
    rewrite Forall_forall in Hall |- *. intros b Hb.
    specialize (Hall b Hb). unfold String.leb in Hall. unfold String.ltb.
    destruct (String.compare a b) eqn:E; try discriminate; [|reflexivity].
    apply String.compare_eq_iff in E. now subst b.
Qed.

(** ** The missing variants *)

Lemma missing_In def tys v :
  In v (missing def tys)
  <-> In v (Variants def)
      /\ forall t, In t tys -> types.Identical (types.Type_ v) t = false.
Proof.
  unfold missing. rewrite filter_In, negb_true_iff. split.
  - intros [Hv Hex]. split; [exact Hv|]. intros t Ht.
    destruct (types.Identical (types.Type_ v) t) eqn:E; [|reflexivity].
    assert (existsb (types.Identical (types.Type_ v)) tys = true) as Hc
      by (apply existsb_exists; eauto).
    congruence.
  - intros [Hv Hall]. split; [exact Hv|].
    destruct (existsb (types.Identical (types.Type_ v)) tys) eqn:E;
      [|reflexivity].
    apply existsb_exists in E. destruct E as [t [Ht Hid]].
    rewrite (Hall t Ht) in Hid. discriminate.
Qed.

Lemma NoDup_map_filter {A B : Type} (f : A -> B) (p : A -> bool) l :
  NoDup (map f l) -> NoDup (map f (filter p l)).
Proof.
  induction l as [|a l IH]; simpl; intros H; [constructor|].
  inversion H as [|? ? Hnotin Hl]; subst.
  destruct (p a); simpl; [constructor|]; auto.
  intros Hin. apply Hnotin.
  apply in_map_iff in Hin. destruct Hin as [x [Hx Hin]].
  apply filter_In in Hin. apply in_map_iff. exists x. tauto.
Qed.

(** ** The steps of [missingVariantsInSwitch] *)

Section Resolved.

Variables (fset : token.FileSet) (pkg : types.Package)
          (defs : list sumTypeDef) (swtch : ast.TypeSwitchStmt).
Variables (x : ast.Expr) (sel : string) (obj : types.Object)
          (def : sumTypeDef) (exprs : list ast.Expr) (hasDefault : bool).

Hypothesis Hassert :
  findTypeAssertExpr swtch = Ok (ast.SelectorExpr x sel).
Hypothesis Hlookup : types.Lookup pkg sel = Some obj.
Hypothesis Hdef : findDef defs (types.Type_ obj) = Some def.
Hypothesis Hvariants : switchVariants swtch = Ok (exprs, hasDefault).

Lemma missingVariantsInSwitch_catchAll :
  hasDefault = true ->
  defaultClauseAlwaysPanics swtch = Ok false ->
  missingVariantsInSwitch pkg defs swtch = Ok (Some def, []).
Proof.
  intros -> Hp. unfold missingVariantsInSwitch.
  rewrite Hassert, bind_Ok, Hlookup, Hdef, Hvariants, bind_Ok, Hp.
  reflexivity.
Qed.

Lemma missingVariantsInSwitch_cases :
  hasDefault = false \/ defaultClauseAlwaysPanics swtch = Ok true ->
  missingVariantsInSwitch pkg defs swtch
  = (variantTypes <- variantTypes_loop pkg exprs [] ;;
     Ok (Some def, missing def variantTypes)).
Proof.
  intros H. unfold missingVariantsInSwitch.
  rewrite Hassert, bind_Ok, Hlookup, Hdef, Hvariants, bind_Ok.
  destruct hasDefault.
  - destruct H as [H|H]; [discriminate|]. now rewrite H.
  - reflexivity.
Qed.

Lemma defaultClauseAlwaysPanics_total :
  hasDefault = true -> exists p, defaultClauseAlwaysPanics swtch = Ok p.
Proof.
  intros ->. unfold switchVariants in Hvariants.
  destruct (switchVariants_loop_hasDefault _ _ _ _ Hvariants)
    as [H|[body Hb]]; [discriminate|].
  destruct (defaultClauseAlwaysPanics_body _ _ Hb) as [[H _]|[H _]]; eauto.
Qed.

End Resolved.

Lemma checkSwitch_of_missing fset pkg defs swtch def m :
  missingVariantsInSwitch pkg defs swtch = Ok (Some def, m) ->
  checkSwitch fset pkg defs swtch
  = Ok (match m with
        | [] => None
        | _ :: _ =>
            Some (errInexhaustive
                    {| Pos := fset (ast.Switch swtch);
                       Def := def; Missing := m |})
        end).
Proof.
  intros H. unfold checkSwitch. rewrite H, bind_Ok. now destruct m.
Qed.

(** ** The variants of the definitions the resolution makes *)

Lemma Lookup_Name pkg name obj :
  types.Lookup pkg name = Some obj -> types.Name obj = name.
Proof.
  unfold types.Lookup. intros H. apply find_some in H.
  now apply String.eqb_eq.
Qed.

Lemma NoDup_flat_map_names (g : string -> list types.Object) names :
  NoDup names ->
  (forall n o, In o (g n) -> types.Name o = n) ->
  (forall n, List.length (g n) <= 1) ->
  NoDup (map types.Name (flat_map g names)).
Proof.
  intros Hnd Hname Hlen.
  induction Hnd as [|n ns Hnotin Hnd IH]; simpl; [constructor|].
  rewrite map_app.
  assert (forall m, In m (map types.Name (flat_map g ns)) -> In m ns) as Hsub.
  { intros m Hm. apply in_map_iff in Hm. destruct Hm as [o [<- Ho]].
    apply in_flat_map in Ho. destruct Ho as [k [Hk Ho]].
    now rewrite (Hname _ _ Ho). }
  specialize (Hlen n). pose proof (Hname n) as Hn.
  destruct (g n) as [|o [|o' l]]; simpl in *; [exact IH| |lia].
  constructor; [|exact IH].
  rewrite (Hn o (or_introl eq_refl)). intros Hin. apply Hnotin, Hsub, Hin.
Qed.

Lemma variantsOf_NoDup pkg iface :
  NoDup (map types.Name (variantsOf pkg iface)).
Proof.
  unfold variantsOf. apply NoDup_flat_map_names.
  - apply NoDup_nodup.
  - intros n o. destruct (types.Lookup pkg n) as [obj|] eqn:E; [|intros []].
    apply Lookup_Name in E.
    destruct (types.Kind obj); simpl; try contradiction;
      destruct (types.Underlying (types.Type_ obj)); simpl;
      try contradiction;
      destruct (types.Implements (types.Type_ obj) iface); simpl;
      try contradiction;
      intros [<-|[]]; exact E.
  - intros n. destruct (types.Lookup pkg n) as [obj|]; simpl; [|lia].
    destruct (types.Kind obj); simpl; try lia;
      destruct (types.Underlying (types.Type_ obj)); simpl; try lia;
      destruct (types.Implements (types.Type_ obj) iface); simpl; lia.
Qed.

Lemma findSumTypeDefs_NoDup decls def :
  In def (fst (findSumTypeDefs decls)) ->
  NoDup (map types.Name (Variants def)).
Proof.
  induction decls as [|decl decls IH]; simpl; [intros []|].
  destruct (findSumTypeDefs decls) as [defs errs].
  destruct (newSumTypeDef decl) as [d|e] eqn:E; simpl; [|exact IH].
  intros [<-|H]; [|exact (IH H)].
  unfold newSumTypeDef in E.
  destruct (Package decl) as [pkg|]; [|discriminate].
  destruct (types.Lookup pkg (TypeName decl)) as [obj|]; [|discriminate].
  destruct (types.Underlying (types.Type_ obj)); try discriminate.
  injection E as <-. apply variantsOf_NoDup.
Qed.

(** ** check.go: the claims *)

(** C1. A type switch on a sum type that misses a variant and has no default
    clause, or a default clause that always panics, makes [checkSwitch]
    return an [inexhaustiveError] for that definition whose [Names] are
    exactly the names of the variants whose type is identical to no case
    type, in strictly increasing order, hence sorted and without duplicates.
    The variants of a definition are distinct objects of one scope, so
    their names differ ([findSumTypeDefs_NoDup]). *)
Theorem checkSwitch_reports_missing :
  forall fset pkg defs swtch x sel obj def exprs hasDefault tys,
    findTypeAssertExpr swtch = Ok (ast.SelectorExpr x sel) ->
    types.Lookup pkg sel = Some obj ->
    findDef defs (types.Type_ obj) = Some def ->
    switchVariants swtch = Ok (exprs, hasDefault) ->
    hasDefault = false \/ defaultClauseAlwaysPanics swtch = Ok true ->
    variantTypes_loop pkg exprs [] = Ok tys ->
    NoDup (map types.Name (Variants def)) ->
    (exists v, In v (Variants def)
               /\ forall t, In t tys ->
                            types.Identical (types.Type_ v) t = false) ->
    exists e,
      checkSwitch fset pkg defs swtch = Ok (Some (errInexhaustive e))
      /\ Pos e = fset (ast.Switch swtch)
      /\ Def e = def
      /\ (forall n,
            In n (Names e)
            <-> exists v,
                  In v (Variants def)
                  /\ (forall t, In t tys ->
                                types.Identical (types.Type_ v) t = false)
                  /\ types.Name v = n)
      /\ StronglySorted (fun a b => String.ltb a b = true) (Names e)
      /\ NoDup (Names e).
Proof.
  intros fset pkg defs swtch x sel obj def exprs hasDefault tys
    Hassert Hlookup Hdef Hvariants Hdefault Htys Hnodup [v Hv].
  pose proof (missingVariantsInSwitch_cases pkg defs swtch x sel obj def
                exprs hasDefault Hassert Hlookup Hdef Hvariants Hdefault)
    as Hm.
  rewrite Htys, bind_Ok in Hm.
  apply (checkSwitch_of_missing fset) in Hm.
  apply missing_In in Hv.
  destruct (missing def tys) as [|m ms] eqn:Emiss; [destruct Hv|].
  rewrite <- Emiss in *. clear Emiss m ms Hv.
  eexists. split; [exact Hm|]. split; [reflexivity|]. split; [reflexivity|].
  assert (NoDup (map types.Name (missing def tys))) as Hnd
    by (apply NoDup_map_filter, Hnodup).
  unfold Names. simpl. repeat split.
  - rewrite Strings_In, in_map_iff. intros [w [Hn Hw]].
    apply missing_In in Hw. exists w. tauto.
  - rewrite Strings_In, in_map_iff. intros [w [Hw [Hall Hn]]].
    exists w. split; [exact Hn|]. apply missing_In. tauto.
  - apply Strings_increasing, Hnd.
  - apply Strings_NoDup, Hnd.
Qed.

Lemma checkSwitch_reports_missing_witness :
  exists e,
    checkSwitch Sample.fset Sample.pkg Sample.defs Sample.swCirclePanic
    = Ok (Some (errInexhaustive e))
    /\ Names e = ["Square"].
Proof.
  destruct (checkSwitch_reports_missing
              Sample.fset Sample.pkg Sample.defs Sample.swCirclePanic
              (ast.Ident "x") "current"
              (Sample.obj types.Var "current" Sample.shapeT 50)
              Sample.shapeDef
              [ast.StarExpr (ast.Ident "Circle")] true [Sample.circleT])
    as [e [He _]].
  - reflexivity.
  - reflexivity.
  - reflexivity.
  - reflexivity.
  - right. reflexivity.
  - reflexivity.
  - simpl. repeat constructor; simpl; intuition discriminate.
  - exists Sample.square. split; [simpl; auto|].
    intros t [<-|[]]. reflexivity.
  - exists e. split; [exact He|].
    injection He as <-. reflexivity.
Defined.

(** C2. A type switch on a sum type whose case types cover every variant of
    the definition makes [checkSwitch] return nil. The cases enter only
    through the set of their types: their order and repetitions play no
    part, and neither does a default clause. *)
Theorem checkSwitch_exhaustive :
  forall fset pkg defs swtch x sel obj def exprs hasDefault tys,
    findTypeAssertExpr swtch = Ok (ast.SelectorExpr x sel) ->
    types.Lookup pkg sel = Some obj ->
    findDef defs (types.Type_ obj) = Some def ->
    switchVariants swtch = Ok (exprs, hasDefault) ->
    variantTypes_loop pkg exprs [] = Ok tys ->
    (forall v, In v (Variants def) ->
               exists t, In t tys
                         /\ types.Identical (types.Type_ v) t = true) ->
    checkSwitch fset pkg defs swtch = Ok None.
Proof.
  intros fset pkg defs swtch x sel obj def exprs hasDefault tys
    Hassert Hlookup Hdef Hvariants Htys Hcover.
  assert (missing def tys = []) as Hnone.
  { destruct (missing def tys) as [|v m] eqn:E; [reflexivity|].
    assert (In v (missing def tys)) as Hv by (rewrite E; now left).
    apply missing_In in Hv. destruct Hv as [Hv Hall].
    destruct (Hcover v Hv) as [t [Ht Hid]].
    rewrite (Hall t Ht) in Hid. discriminate. }
  assert (missingVariantsInSwitch pkg defs swtch = Ok (Some def, [])) as Hm.
  { destruct hasDefault eqn:Ehd.
    - destruct (defaultClauseAlwaysPanics_total swtch exprs true Hvariants
                  eq_refl) as [[|] Hp].
      + rewrite (missingVariantsInSwitch_cases pkg defs swtch x sel obj def
                   exprs true Hassert Hlookup Hdef Hvariants (or_intror Hp)).
        now rewrite Htys, bind_Ok, Hnone.
      + exact (missingVariantsInSwitch_catchAll pkg defs swtch x sel obj def
                 exprs true Hassert Hlookup Hdef Hvariants eq_refl Hp).
    - rewrite (missingVariantsInSwitch_cases pkg defs swtch x sel obj def
                 exprs false Hassert Hlookup Hdef Hvariants
                 (or_introl eq_refl)).
      now rewrite Htys, bind_Ok, Hnone. }
  now rewrite (checkSwitch_of_missing fset _ _ _ _ _ Hm).
Qed.

Lemma checkSwitch_exhaustive_witness :
  checkSwitch Sample.fset Sample.pkg Sample.defs Sample.swBoth = Ok None.
Proof.
  apply (checkSwitch_exhaustive
           Sample.fset Sample.pkg Sample.defs Sample.swBoth
           (ast.Ident "x") "current"
           (Sample.obj types.Var "current" Sample.shapeT 50)
           Sample.shapeDef
           [ast.StarExpr (ast.Ident "Circle");
            ast.StarExpr (ast.Ident "Square");
            ast.StarExpr (ast.Ident "Circle")]
           false
           [Sample.circleT; Sample.squareT; Sample.circleT]);
    try reflexivity.
  intros v [<-|[<-|[]]].
  - exists Sample.squareT. split; [simpl; auto|reflexivity].
  - exists Sample.circleT. split; [simpl; auto|reflexivity].
Defined.

Lemma checkSwitch_withoutDefault fset pkg defs swtch :
  defaultClauseAlwaysPanics swtch = Ok true ->
  checkSwitch fset pkg defs swtch
  = checkSwitch fset pkg defs (withoutDefault swtch).
Proof.
  intros Hp. unfold checkSwitch, missingVariantsInSwitch.
  change (findTypeAssertExpr (withoutDefault swtch))
    with (findTypeAssertExpr swtch).
  destruct (findTypeAssertExpr swtch) as [asserted|m]; [|reflexivity].
  rewrite !bind_Ok.
  destruct asserted as [| |x sel| | |]; try reflexivity.
  destruct (types.Lookup pkg sel) as [obj|]; [|reflexivity].
  destruct (findDef defs (types.Type_ obj)) as [def|]; [|reflexivity].
  unfold switchVariants. simpl ast.Body.
  rewrite switchVariants_loop_withoutDefault.
  destruct (switchVariants_loop (ast.Body swtch) [] false) as [[e h]|m];
    [|reflexivity].
  rewrite !bind_Ok. destruct h; [|reflexivity].
  now rewrite Hp.
Qed.

(** C3. On a type switch on a sum type with a default clause: when the
    default clause does not always panic, [checkSwitch] returns nil whatever
    the cases are; when it always panics, [checkSwitch] returns what it
    returns for the same switch without the default clause, and that is
    the error with the missing variants whenever a variant is missing. *)
Theorem checkSwitch_default :
  forall fset pkg defs swtch x sel obj def exprs,
    findTypeAssertExpr swtch = Ok (ast.SelectorExpr x sel) ->
    types.Lookup pkg sel = Some obj ->
    findDef defs (types.Type_ obj) = Some def ->
    switchVariants swtch = Ok (exprs, true) ->
    (defaultClauseAlwaysPanics swtch = Ok false ->
     checkSwitch fset pkg defs swtch = Ok None)
    /\ (defaultClauseAlwaysPanics swtch = Ok true ->
        checkSwitch fset pkg defs swtch
        = checkSwitch fset pkg defs (withoutDefault swtch)
        /\ forall tys,
             variantTypes_loop pkg exprs [] = Ok tys ->
             missing def tys <> [] ->
             checkSwitch fset pkg defs swtch
             = Ok (Some (errInexhaustive
                           {| Pos := fset (ast.Switch swtch);
                              Def := def;
                              Missing := missing def tys |}))).
Proof.
  intros fset pkg defs swtch x sel obj def exprs
    Hassert Hlookup Hdef Hvariants.
  split; intros Hp.
  - pose proof (missingVariantsInSwitch_catchAll pkg defs swtch x sel obj
                  def exprs true Hassert Hlookup Hdef Hvariants eq_refl Hp)
      as Hm.
    now rewrite (checkSwitch_of_missing fset _ _ _ _ _ Hm).
  - split; [now apply checkSwitch_withoutDefault|].
    intros tys Htys Hmiss.
    pose proof (missingVariantsInSwitch_cases pkg defs swtch x sel obj def
                  exprs true Hassert Hlookup Hdef Hvariants (or_intror Hp))
      as Hm.
    rewrite Htys, bind_Ok in Hm.
    rewrite (checkSwitch_of_missing fset _ _ _ _ _ Hm).
    destruct (missing def tys); [now destruct Hmiss|reflexivity].
Qed.

Lemma checkSwitch_default_witness :
  checkSwitch Sample.fset Sample.pkg Sample.defs Sample.swCircleReturn
  = Ok None
  /\ checkSwitch Sample.fset Sample.pkg Sample.defs Sample.swCirclePanic
     = Ok (Some (errInexhaustive
                   {| Pos := Sample.fset 120;
                      Def := Sample.shapeDef;
                      Missing := [Sample.square] |})).
Proof.
  split.
  - apply (checkSwitch_default
             Sample.fset Sample.pkg Sample.defs Sample.swCircleReturn
             (ast.Ident "x") "current"
             (Sample.obj types.Var "current" Sample.shapeT 50)
             Sample.shapeDef [ast.StarExpr (ast.Ident "Circle")]);
      reflexivity.
  - apply (checkSwitch_default
             Sample.fset Sample.pkg Sample.defs Sample.swCirclePanic
             (ast.Ident "x") "current"
             (Sample.obj types.Var "current" Sample.shapeT 50)
             Sample.shapeDef [ast.StarExpr (ast.Ident "Circle")]
             eq_refl eq_refl eq_refl eq_refl)
      with (tys := [Sample.circleT]);
      [reflexivity|reflexivity|discriminate].
Defined.

(** C4, as stated, fails on a switch without default clause: there
    [defaultClauseAlwaysPanics] does not return false, it panics. *)
Lemma defaultClauseAlwaysPanics_no_default :
  switchVariants Sample.swCircle
  = Ok ([ast.StarExpr (ast.Ident "Circle")], false)
  /\ defaultClauseAlwaysPanics Sample.swCircle <> Ok false
  /\ defaultClauseAlwaysPanics Sample.swCircle
     = Panic "switch statement has no default clause".
Proof.
  split; [reflexivity|]. split; [discriminate|reflexivity].
Qed.

(** C4, amended. On a switch with a default clause,
    [defaultClauseAlwaysPanics] returns true if and only if the body of the
    first default clause is one expression statement that calls the
    identifier [panic], and false for every other body. On a switch
    without default clause it panics; [missingVariantsInSwitch] calls it on
    switches with a default clause only. *)
Theorem defaultClauseAlwaysPanics_shape :
  forall swtch,
    (forall pre body post,
       ast.Body swtch = pre ++ ast.CaseClause None body :: post ->
       Forall typedCase pre ->
       (defaultClauseAlwaysPanics swtch = Ok true /\ panicCall body)
       \/ (defaultClauseAlwaysPanics swtch = Ok false /\ ~ panicCall body))
    /\ (Forall typedCase (ast.Body swtch) ->
        defaultClauseAlwaysPanics swtch
        = Panic "switch statement has no default clause").
Proof.
  intros swtch. split.
  - intros pre body post Hbody Hpre.
    apply defaultClauseAlwaysPanics_body.
    rewrite Hbody. now apply firstDefaultClause_found.
  - intros Hall. unfold defaultClauseAlwaysPanics.
    now rewrite (firstDefaultClause_absent _ Hall).
Qed.

Lemma defaultClauseAlwaysPanics_shape_witness :
  defaultClauseAlwaysPanics Sample.swCirclePanic = Ok true
  /\ defaultClauseAlwaysPanics Sample.swCircleReturn = Ok false
  /\ defaultClauseAlwaysPanics Sample.swBoth
     = Panic "switch statement has no default clause".
Proof.
  assert (forall names, typedCase (Sample.caseOf names)) as Hcase
    by (intros names; eexists; eexists; reflexivity).
  split; [|split].
  - destruct (proj1 (defaultClauseAlwaysPanics_shape Sample.swCirclePanic)
                [Sample.caseOf ["Circle"]] _ [] eq_refl)
      as [[H _]|[H _]]; [now repeat constructor|exact H|discriminate H].
  - destruct (proj1 (defaultClauseAlwaysPanics_shape Sample.swCircleReturn)
                [Sample.caseOf ["Circle"]] _ [] eq_refl)
      as [[H _]|[H _]]; [now repeat constructor|discriminate H|exact H].
  - apply (proj2 (defaultClauseAlwaysPanics_shape Sample.swBoth)).
    now repeat constructor.
Defined.

(** ** findDef *)

Lemma findDef_Some defs needle def :
  findDef defs needle = Some def ->
  In def defs
  /\ types.Identical (types.Underlying needle) (Ty def) = true.
Proof.
  induction defs as [|d defs IH]; simpl; [discriminate|].
  destruct (types.Identical (types.Underlying needle) (Ty d)) eqn:E.
  - intros [= <-]. auto.
  - intros H. destruct (IH H). auto.
Qed.

Lemma findDef_None defs needle :
  findDef defs needle = None
  <-> forall def, In def defs ->
        types.Identical (types.Underlying needle) (Ty def) = false.
Proof.
  induction defs as [|d defs IH]; simpl.
  - split; [intros _ def []|reflexivity].
  - destruct (types.Identical (types.Underlying needle) (Ty d)) eqn:E.
    + split; [discriminate|]. intros H.
      rewrite (H d (or_introl eq_refl)) in E. discriminate.
    + rewrite IH. split.
      * intros H def [<-|Hd]; auto.
      * intros H def Hd. apply H. now right.
Qed.

Lemma findDef_Underlying defs t1 t2 :
  types.Underlying t1 = types.Underlying t2 ->
  findDef defs t1 = findDef defs t2.
Proof.
  intros H. induction defs as [|d defs IH]; simpl; [reflexivity|].
  now rewrite H, IH.
Qed.

(** C6. [findDef] looks at the switched type through its underlying type
    only: two types with the same underlying type resolve alike, so a type
    defined from a sum type resolves to the definition of that sum type;
    the definition found is one whose type is identical to the underlying
    type of the switched type, and none is found exactly when there is no
    such definition. A switch on a type for which none is found makes
    [checkSwitch] return nil. *)
Theorem findDef_by_underlying_type :
  forall defs,
    (forall t1 t2,
       types.Underlying t1 = types.Underlying t2 ->
       findDef defs t1 = findDef defs t2)
    /\ (forall name t methods,
          findDef defs (types.Named name t methods) = findDef defs t)
    /\ (forall needle def,
          findDef defs needle = Some def ->
          In def defs
          /\ types.Identical (types.Underlying needle) (Ty def) = true)
    /\ (forall needle,
          findDef defs needle = None
          <-> forall def, In def defs ->
                types.Identical (types.Underlying needle) (Ty def) = false)
    /\ (forall fset pkg swtch x sel obj,
          findTypeAssertExpr swtch = Ok (ast.SelectorExpr x sel) ->
          types.Lookup pkg sel = Some obj ->
          findDef defs (types.Type_ obj) = None ->
          checkSwitch fset pkg defs swtch = Ok None).
Proof.
  intros defs. repeat apply conj.
  - apply findDef_Underlying.
  - intros name t methods. now apply findDef_Underlying.
  - apply findDef_Some.
  - apply findDef_None.
  - intros fset pkg swtch x sel obj Hassert Hlookup Hnone.
    unfold checkSwitch, missingVariantsInSwitch.
    now rewrite Hassert, bind_Ok, Hlookup, Hnone.
Qed.

Lemma findDef_by_underlying_type_witness :
  findDef Sample.defs Sample.figureT = Some Sample.shapeDef
  /\ findDef Sample.defs Sample.shapeT = Some Sample.shapeDef
  /\ checkSwitch Sample.fset Sample.pkg Sample.defs Sample.swCount = Ok None.
Proof.
  destruct (findDef_by_underlying_type Sample.defs)
    as (Hunder & _ & _ & _ & Hnil).
  split; [|split].
  - rewrite (Hunder Sample.figureT Sample.shapeT eq_refl). reflexivity.
  - reflexivity.
  - apply (Hnil Sample.fset Sample.pkg Sample.swCount (ast.Ident "x")
             "count" (Sample.obj types.Var "count" Sample.intT 70));
      reflexivity.
Defined.

(** ** Panics and the loop of [run] *)

Lemma variantTypes_loop_unresolvable pkg expr exprs :
  In expr exprs ->
  resolvable pkg expr = false ->
  forall variantTypes,
    exists msg, variantTypes_loop pkg exprs variantTypes = Panic msg.
Proof.
  intros Hin Hres.
  induction exprs as [|e exprs IH]; [destruct Hin|].
  intros acc. simpl.
  destruct e as [| | |y| |]; try (eexists; reflexivity).
  destruct y as [name| | | | |]; try (eexists; reflexivity).
  destruct (types.Lookup pkg name) as [obj|] eqn:E;
    [|eexists; reflexivity].
  destruct Hin as [<-|Hin].
  - simpl in Hres. rewrite E in Hres. discriminate.
  - apply (IH Hin).
Qed.

Lemma checkSwitch_uninterpretable fset pkg defs swtch :
  uninterpretable pkg defs swtch ->
  exists msg, checkSwitch fset pkg defs swtch = Panic msg.
Proof.
  intros [msg Hassert
         |asserted Hassert Hsel
         |x sel Hassert Hlookup
         |x sel obj def exprs hd expr Hassert Hlookup Hdef Hvar Hdefault
            Hin Hres];
    unfold checkSwitch.
  - unfold missingVariantsInSwitch. rewrite Hassert. eexists. reflexivity.
  - unfold missingVariantsInSwitch. rewrite Hassert, bind_Ok.
    destruct asserted; try discriminate; eexists; reflexivity.
  - unfold missingVariantsInSwitch. rewrite Hassert, bind_Ok, Hlookup.
    eexists. reflexivity.
  - rewrite (missingVariantsInSwitch_cases pkg defs swtch x sel obj def
               exprs hd Hassert Hlookup Hdef Hvar Hdefault).
    destruct (variantTypes_loop_unresolvable pkg expr exprs Hin Hres [])
      as [msg ->].
    eexists. reflexivity.
Qed.

Lemma run_loop_Panic fset defs pre swtch pkg post msg :
  Forall (fun p => checkSwitch fset (snd p) defs (fst p) = Ok None) pre ->
  checkSwitch fset pkg defs swtch = Panic msg ->
  run_loop fset defs (pre ++ (swtch, pkg) :: post) = Panic msg.
Proof.
  intros Hpre Hp.
  induction Hpre as [|[s p] pre Hs _ IH]; simpl.
  - now rewrite Hp.
  - simpl in Hs. now rewrite Hs, bind_Ok.
Qed.

Lemma run_checks_loop fset defs errs switchToPkg :
  defs <> [] ->
  run_checks fset defs errs switchToPkg = run_loop fset defs switchToPkg.
Proof.
  intros H. unfold run_checks. destruct defs; [now destruct H|reflexivity].
Qed.

(** C7, as stated, fails: when [run] visits a switch the checker cannot
    interpret ahead of a switch that misses a variant, the run panics, and
    the diagnostic it returns without the first switch is not produced. In
    the other order of the two switches [run] returns with the diagnostic
    and does not come to the switch it cannot interpret. *)
Lemma run_panics_on_uninterpretable_switch :
  uninterpretable Sample.pkg Sample.defs Sample.swIdent
  /\ run Sample.fsys (Sample.pass "shapes.go" [Sample.swCircle])
     = (Ok (Some (errInexhaustive
                    {| Pos := Sample.fsetOf "shapes.go" 100;
                       Def := {| Decl := {| Package := Some Sample.pkg;
                                            TypeName := "Shape";
                                            Path := "shapes.go";
                                            Line := 3 |};
                                 Ty := Sample.iface;
                                 Variants := [Sample.square; Sample.circle] |};
                       Missing := [Sample.square] |})), [])
  /\ run Sample.fsys
         (Sample.pass "shapes.go" [Sample.swIdent; Sample.swCircle])
     = (Panic "expected *ast.SelectExpr: *ast.SelectorExpr", [])
  /\ run Sample.fsys
         (Sample.pass "shapes.go" [Sample.swCircle; Sample.swIdent])
     = run Sample.fsys (Sample.pass "shapes.go" [Sample.swCircle]).
Proof.
  split; [|split; [|split]].
  - apply badSwitched with (asserted := ast.Ident "x"); reflexivity.
  - vm_compute. reflexivity.
  - vm_compute. reflexivity.
  - vm_compute. reflexivity.
Qed.

(** C7, amended. A switch the checker cannot interpret makes [checkSwitch]
    panic: the outcome is neither nil nor an error of exhaustiveness. The
    panic is not confined to the switch: it ends the loop of [run] over the
    switches, whatever switches come after it, when the switches before it
    have passed the check. *)
Theorem checkSwitch_panics_on_uninterpretable :
  forall fset pkg defs swtch,
    uninterpretable pkg defs swtch ->
    exists msg,
      checkSwitch fset pkg defs swtch = Panic msg
      /\ forall errs pre post,
           defs <> [] ->
           Forall (fun p => checkSwitch fset (snd p) defs (fst p) = Ok None)
                  pre ->
           run_checks fset defs errs (pre ++ (swtch, pkg) :: post)
           = Panic msg.
Proof.
  intros fset pkg defs swtch Hun.
  destruct (checkSwitch_uninterpretable fset pkg defs swtch Hun)
    as [msg Hmsg].
  exists msg. split; [exact Hmsg|].
  intros errs pre post Hdefs Hpre.
  rewrite (run_checks_loop _ _ _ _ Hdefs).
  now apply run_loop_Panic.
Qed.

Lemma checkSwitch_panics_on_uninterpretable_witness :
  run_checks Sample.fset Sample.defs []
    [(Sample.swBoth, Sample.pkg); (Sample.swNoStar, Sample.pkg);
     (Sample.swCircle, Sample.pkg)]
  = Panic "not a star expression".
Proof.
  destruct (checkSwitch_panics_on_uninterpretable
              Sample.fset Sample.pkg Sample.defs Sample.swNoStar)
    as [msg [Hmsg Hrun]].
  - apply badCase
      with (x := ast.Ident "x") (sel := "current")
           (obj := Sample.obj types.Var "current" Sample.shapeT 50)
           (def := Sample.shapeDef) (exprs := [ast.Ident "Circle"])
           (hasDefault := false) (expr := ast.Ident "Circle");
      try reflexivity; [now left|now left].
  - injection Hmsg as <-.
    apply (Hrun [] [(Sample.swBoth, Sample.pkg)]
                [(Sample.swCircle, Sample.pkg)]).
    + discriminate.
    + repeat constructor.
Defined.

(** ** Resolution failures in [run] *)

Lemma run_checks_errs_ignored fset defs errs errs' switchToPkg :
  defs <> [] ->
  run_checks fset defs errs switchToPkg
  = run_checks fset defs errs' switchToPkg.
Proof.
  intros H. now rewrite !run_checks_loop.
Qed.

Lemma run_checks_no_defs fset err errs switchToPkg :
  run_checks fset [] (err :: errs) switchToPkg = Ok (Some err).
Proof. reflexivity. Qed.

(** C8 on a file that declares [Shape], which resolves, and [Polygon],
    which the package does not define: the resolution finds the failure,
    and [run] returns nil without any trace of it. Without the declaration
    of [Shape], [run] returns the failure as its error. *)
Theorem run_drops_resolution_failure :
  (exists decls def,
     findSumTypeDecls Sample.fsys (Sample.fsetOf "unknown.go")
       [(Sample.astFile, Sample.pkg)]
     = (decls, None, [])
     /\ findSumTypeDefs decls
        = ([def],
           [errNotFound {| Package := Some Sample.pkg;
                           TypeName := "Polygon";
                           Path := "unknown.go";
                           Line := 5 |}]))
  /\ run Sample.fsys (Sample.pass "unknown.go" []) = (Ok None, [])
  /\ run_checks Sample.fset []
       [errNotFound (Sample.decl "Polygon" 5)] []
     = Ok (Some (errNotFound (Sample.decl "Polygon" 5))).
Proof.
  split; [|split].
  - eexists. eexists. split; vm_compute; reflexivity.
  - vm_compute. reflexivity.
  - reflexivity.
Qed.

(** ** The regular expression of declarations *)

Lemma attempt_none {R : Type} (k : nat -> option R) min n :
  (forall j, j <= n -> k j = None) -> regexp.attempt k min n = None.
Proof.
  induction n as [|n IH]; intros H; simpl.
  - now rewrite (H 0).
  - rewrite (H (S n)) by lia.
    destruct (min <=? n)%nat; [|reflexivity].
    apply IH. intros j Hj. apply H. lia.
Qed.

Lemma attempt_longest {R : Type} (k : nat -> option R) min n :
  (forall j, j < n -> k j = None) -> regexp.attempt k min n = k n.
Proof.
  intros H. destruct n as [|n]; simpl.
  - now destruct (k 0).
  - destruct (k (S n)) as [r|] eqn:E; [reflexivity|].
    destruct (min <=? n)%nat; [|reflexivity].
    apply attempt_none. intros j Hj. apply H. lia.
Qed.

Lemma runLength_firstn cls s :
  Forall (fun c => regexp.inClass cls c = true)
         (firstn (regexp.runLength cls s) s).
Proof.
  induction s as [|c s IH]; simpl; [constructor|].
  destruct (regexp.inClass cls c) eqn:E; simpl; [|constructor].
  constructor; assumption.
Qed.

Lemma runLength_skipn cls s :
  forall j c rest,
    skipn j s = c :: rest ->
    (j < regexp.runLength cls s -> regexp.inClass cls c = true)
    /\ (j = regexp.runLength cls s -> regexp.inClass cls c = false).
Proof.
  induction s as [|d s IH]; intros j c rest H.
  - now destruct j.
  - simpl. destruct j as [|j]; simpl in H.
    + injection H as -> ->.
      destruct (regexp.inClass cls c); split; intros; try lia; auto.
    + destruct (IH j c rest H) as [H1 H2].
      destruct (regexp.inClass cls d); split; intros; try lia.
      * apply H1. lia.
      * apply H2. lia.
Qed.

Lemma runLength_app cls a b :
  Forall (fun c => regexp.inClass cls c = true) a ->
  regexp.runLength cls b = 0 ->
  regexp.runLength cls (a ++ b) = List.length a.
Proof.
  induction 1 as [|c a Hc _ IH]; intros Hb; simpl; [exact Hb|].
  now rewrite Hc, IH.
Qed.

Lemma runLength_le cls s : regexp.runLength cls s <= List.length s.
Proof.
  induction s as [|c s IH]; simpl; [lia|].
  destruct (regexp.inClass cls c); lia.
Qed.

Lemma stripPrefix_app l s : regexp.stripPrefix l (l ++ s) = Some s.
Proof.
  induction l as [|a l IH]; simpl; [reflexivity|].
  now rewrite Ascii.eqb_refl.
Qed.

Lemma stripPrefix_Some l s s' :
  regexp.stripPrefix l s = Some s' -> s = l ++ s'.
Proof.
  revert s. induction l as [|a l IH]; intros s; simpl.
  - now intros [= ->].
  - destruct s as [|c s]; [discriminate|].
    destruct (Ascii.eqb_spec c a) as [->|]; [|discriminate].
    intros H. now rewrite (IH _ H).
Qed.

Lemma matchItems_end s caps :
  regexp.matchItems [] s caps
  = match s with [] => Some caps | _ :: _ => None end.
Proof. now destruct s. Qed.

(** [\s*$] *)
Lemma matchItems_trailing s caps :
  regexp.matchItems [regexp.Plain (regexp.Star regexp.Space)] s caps
  = match skipn (regexp.runLength regexp.Space s) s with
    | [] => Some caps
    | _ :: _ => None
    end.
Proof.
  cbn [regexp.matchItems regexp.atom regexp.capture].
  rewrite attempt_longest; [reflexivity|].
  intros j Hj.
  destruct (skipn j s) as [|c rest] eqn:E; [|reflexivity].
  pose proof (runLength_le regexp.Space s).
  apply (f_equal (@List.length ascii)) in E.
  rewrite length_skipn in E. simpl in E. lia.
Qed.

(** [(\S+)\s*$] *)
Lemma matchItems_name s :
  regexp.matchItems
    [regexp.Group (regexp.Plus regexp.NonSpace);
     regexp.Plain (regexp.Star regexp.Space)] s []
  = let n := regexp.runLength regexp.NonSpace s in
    if (1 <=? n)%nat then
      match skipn (regexp.runLength regexp.Space (skipn n s)) (skipn n s) with
      | [] => Some [firstn n s]
      | _ :: _ => None
      end
    else None.
Proof.
  cbn [regexp.matchItems regexp.atom regexp.capture app].
  cbv zeta.
  destruct (1 <=? regexp.runLength regexp.NonSpace s)%nat; [|reflexivity].
  rewrite attempt_longest.
  - apply matchItems_trailing.
  - intros j Hj.
    change (regexp.matchItems [regexp.Plain (regexp.Star regexp.Space)]
              (skipn j s) [firstn j s] = None).
    rewrite matchItems_trailing.
    destruct (skipn j s) as [|c rest] eqn:E.
    + pose proof (runLength_le regexp.NonSpace s).
      apply (f_equal (@List.length ascii)) in E.
      rewrite length_skipn in E. simpl in E. lia.
    + destruct (runLength_skipn regexp.NonSpace s j c rest E) as [Hc _].
      specialize (Hc Hj). simpl in Hc. apply negb_true_iff in Hc.
      simpl. now rewrite Hc.
Qed.

Lemma matchItems_reParseSumTypeDecl line :
  regexp.matchItems reParseSumTypeDecl line [] = parseDirect line.
Proof.
  unfold reParseSumTypeDecl, parseDirect.
  cbn [regexp.matchItems regexp.atom regexp.capture].
  destruct (regexp.stripPrefix (list_ascii_of_string marker) line)
    as [s1|]; [|reflexivity].
  cbv zeta.
  destruct (1 <=? regexp.runLength regexp.Space s1)%nat; [|reflexivity].
  rewrite attempt_longest.
  - apply matchItems_name.
  - intros j Hj.
    change (regexp.matchItems
              [regexp.Group (regexp.Plus regexp.NonSpace);
               regexp.Plain (regexp.Star regexp.Space)] (skipn j s1) []
            = None).
    rewrite matchItems_name. cbv zeta.
    destruct (skipn j s1) as [|c rest] eqn:E; [reflexivity|].
    destruct (runLength_skipn regexp.Space s1 j c rest E) as [Hc _].
    specialize (Hc Hj). simpl in Hc. simpl. now rewrite Hc.
Qed.

(** ** The lines that declare a sum type *)

Lemma skipn_length_app {A : Type} (a b : list A) :
  skipn (List.length a) (a ++ b) = b.
Proof. induction a as [|x a IH]; simpl; auto. Qed.

Lemma firstn_length_app {A : Type} (a b : list A) :
  firstn (List.length a) (a ++ b) = a.
Proof. induction a as [|x a IH]; simpl; [reflexivity|now rewrite IH]. Qed.

Lemma isSpace_class ws :
  Forall isSpace ws ->
  Forall (fun c => regexp.inClass regexp.Space c = true) ws.
Proof. exact (fun H => H). Qed.

Lemma nonSpace_class name :
  Forall nonSpace name ->
  Forall (fun c => regexp.inClass regexp.NonSpace c = true) name.
Proof.
  apply Forall_impl. intros c Hc. simpl. unfold nonSpace in Hc.
  now rewrite Hc.
Qed.

Lemma runLength_all cls s :
  Forall (fun c => regexp.inClass cls c = true) s ->
  regexp.runLength cls s = List.length s.
Proof.
  intros H. rewrite <- (app_nil_r s) at 1. now apply runLength_app.
Qed.

Lemma HasPrefix_app l s p :
  bytes.HasPrefix (l ++ s) (l ++ p) = bytes.HasPrefix s p.
Proof.
  induction l as [|a l IH]; simpl; [reflexivity|].
  now rewrite Ascii.eqb_refl.
Qed.

Lemma isSumTypeDecl_marker s :
  isSumTypeDecl (list_ascii_of_string marker ++ s)
  = match s with
    | c :: _ => Ascii.eqb c space || Ascii.eqb c tab
    | [] => false
    end.
Proof.
  unfold isSumTypeDecl.
  change (list_ascii_of_string (marker ++ " ")%string)
    with (list_ascii_of_string marker ++ [space]).
  change (list_ascii_of_string (marker ++ String "009"%char EmptyString)%string)
    with (list_ascii_of_string marker ++ [tab]).
  rewrite !HasPrefix_app. destruct s as [|c s]; [reflexivity|].
  simpl. now destruct s; rewrite !andb_true_r.
Qed.

Lemma declLine_parseDirect line name :
  declLine line name ->
  isSumTypeDecl line = true /\ parseDirect line = Some [name].
Proof.
  intros (c & ws & ws' & -> & Hc & Hws & Hne & Hname & Hws').
  assert (isSpace c) as Hsp by (destruct Hc as [->| ->]; reflexivity).
  split.
  - rewrite isSumTypeDecl_marker.
    destruct Hc as [->| ->]; reflexivity.
  - unfold parseDirect. rewrite stripPrefix_app. cbv zeta.
    assert (regexp.runLength regexp.NonSpace ws' = 0) as Hws'0.
    { destruct Hws' as [|d ws' Hd _]; [reflexivity|].
      simpl. unfold isSpace in Hd. now rewrite Hd. }
    assert (regexp.runLength regexp.Space (name ++ ws') = 0) as Hname0.
    { destruct Hname as [|d name Hd _]; [now destruct Hne|].
      simpl. unfold nonSpace in Hd. now rewrite Hd. }
    change (c :: ws ++ name ++ ws') with ((c :: ws) ++ name ++ ws').
    rewrite (runLength_app regexp.Space (c :: ws) (name ++ ws'))
      by (try constructor; assumption).
    rewrite skipn_length_app.
    rewrite (runLength_app regexp.NonSpace name ws')
      by (try apply nonSpace_class; assumption).
    rewrite skipn_length_app, firstn_length_app.
    rewrite (runLength_all regexp.Space ws') by assumption.
    rewrite skipn_all.
    destruct name; [now destruct Hne|reflexivity].
Qed.

Lemma parseDirect_declLine line caps :
  isSumTypeDecl line = true ->
  parseDirect line = Some caps ->
  exists name, caps = [name] /\ declLine line name.
Proof.
  unfold parseDirect. intros Hdecl.
  destruct (regexp.stripPrefix (list_ascii_of_string marker) line)
    as [s1|] eqn:Estrip; [|discriminate].
  apply stripPrefix_Some in Estrip. subst line.
  rewrite isSumTypeDecl_marker in Hdecl.
  destruct s1 as [|c r]; [discriminate|].
  cbv zeta.
  set (n1 := regexp.runLength regexp.Space (c :: r)).
  set (s2 := skipn n1 (c :: r)).
  set (n2 := regexp.runLength regexp.NonSpace s2).
  set (s3 := skipn n2 s2).
  destruct (1 <=? n1)%nat eqn:E1; [|discriminate].
  destruct (1 <=? n2)%nat eqn:E2; [|discriminate].
  destruct (skipn (regexp.runLength regexp.Space s3) s3) eqn:E3;
    [|discriminate].
  intros [= <-]. exists (firstn n2 s2). split; [reflexivity|].
  apply Nat.leb_le in E1, E2.
  pose proof (runLength_firstn regexp.Space (c :: r)) as H1.
  fold n1 in H1.
  pose proof (runLength_firstn regexp.NonSpace s2) as H2. fold n2 in H2.
  pose proof (runLength_firstn regexp.Space s3) as H3.
  pose proof (firstn_skipn (regexp.runLength regexp.Space s3) s3) as H3'.
  rewrite E3, app_nil_r in H3'. rewrite H3' in H3.
  destruct n1 as [|n1']; [lia|]. simpl firstn in H1.
  exists c, (firstn n1' r), s3. repeat apply conj.
  - f_equal.
    rewrite <- (firstn_skipn (S n1') (c :: r)) at 1.
    simpl firstn. simpl app. do 2 f_equal.
    fold s2. unfold s3. now rewrite firstn_skipn.
  - apply orb_true_iff in Hdecl.
    destruct Hdecl as [H|H]; apply Ascii.eqb_eq in H; auto.
  - now inversion H1.
  - pose proof (runLength_le regexp.NonSpace s2). fold n2 in H.
    destruct s2; simpl in *; [lia|].
    destruct n2; [lia|discriminate].
  - revert H2. apply Forall_impl. intros d Hd. simpl in Hd.
    now apply negb_true_iff in Hd.
  - exact H3.
Qed.

Lemma parseSumTypeDecl_direct line :
  parseSumTypeDecl line
  = match parseDirect line with
    | Some caps => string_of_list_ascii (nth 0 caps [])
    | None => EmptyString
    end.
Proof.
  unfold parseSumTypeDecl, regexp.FindSubmatch.
  rewrite matchItems_reParseSumTypeDecl.
  unfold parseDirect.
  destruct (regexp.stripPrefix (list_ascii_of_string marker) line)
    as [s1|]; [|reflexivity].
  cbv zeta.
  set (s2 := skipn (regexp.runLength regexp.Space s1) s1).
  set (s3 := skipn (regexp.runLength regexp.NonSpace s2) s2).
  destruct (1 <=? regexp.runLength regexp.Space s1)%nat; [|reflexivity].
  destruct (1 <=? regexp.runLength regexp.NonSpace s2)%nat; [|reflexivity].
  now destruct (skipn (regexp.runLength regexp.Space s3) s3).
Qed.

Lemma string_of_list_ascii_length name :
  String.length (string_of_list_ascii name) = List.length name.
Proof. induction name; simpl; auto. Qed.

(** What a line adds to the declarations. *)
Lemma sumTypeDeclSearch_loop_line path line lineNum decls :
  (forall name,
     declLine line name ->
     sumTypeDeclSearch_loop path [line] lineNum decls
     = decls ++ [declOf path (S lineNum) name])
  /\ (~ (exists name, declLine line name) ->
      sumTypeDeclSearch_loop path [line] lineNum decls = decls).
Proof.
  split.
  - intros name H. pose proof H as (c & ws & ws' & _ & _ & _ & Hne & _).
    apply declLine_parseDirect in H. destruct H as [Hd Hp].
    simpl. rewrite Hd, parseSumTypeDecl_direct, Hp. simpl.
    rewrite string_of_list_ascii_length.
    destruct name; [now destruct Hne|reflexivity].
  - intros Hno. simpl.
    destruct (isSumTypeDecl line) eqn:Hd; [|reflexivity]. simpl.
    rewrite parseSumTypeDecl_direct.
    destruct (parseDirect line) as [caps|] eqn:Hp; [|reflexivity].
    destruct (parseDirect_declLine line caps Hd Hp) as [name [_ Hn]].
    destruct Hno. now exists name.
Qed.

Lemma declLine_dec line :
  (exists name, declLine line name) \/ ~ (exists name, declLine line name).
Proof.
  destruct (isSumTypeDecl line) eqn:Hd.
  - destruct (parseDirect line) as [caps|] eqn:Hp.
    + left. destruct (parseDirect_declLine line caps Hd Hp) as [n [_ Hn]].
      now exists n.
    + right. intros [n Hn]. apply declLine_parseDirect in Hn.
      destruct Hn. congruence.
  - right. intros [n Hn]. apply declLine_parseDirect in Hn.
    destruct Hn. congruence.
Qed.

Lemma declLine_space_tab rest name :
  declLine (list_ascii_of_string marker ++ space :: rest) name
  <-> declLine (list_ascii_of_string marker ++ tab :: rest) name.
Proof.
  split; intros (c & ws & ws' & Hline & Hc & H);
    apply app_inv_head in Hline; injection Hline as <- ->.
  - exists tab, ws, ws'. split; [reflexivity|]. split; [now right|exact H].
  - exists space, ws, ws'. split; [reflexivity|]. split; [now left|exact H].
Qed.

(** C5, as stated, fails on a name that is no identifier: the line
    [//go-sumtype:decl 1+1] yields a declaration, of the name [1+1], and
    whichever way the line is read as a declaration, the name is not an
    identifier. *)
Lemma declaration_of_non_identifier :
  sumTypeDeclSearch_loop "shapes.go"
    [list_ascii_of_string "//go-sumtype:decl 1+1"] 0 []
  = [declOf "shapes.go" 1 (list_ascii_of_string "1+1")]
  /\ forall name,
       declLine (list_ascii_of_string "//go-sumtype:decl 1+1") name ->
       isIdentifier name = false.
Proof.
  split; [reflexivity|].
  intros name H.
  apply (proj1 (sumTypeDeclSearch_loop_line "shapes.go" _ 0 [])) in H.
  vm_compute in H. injection H as H.
  apply (f_equal list_ascii_of_string) in H.
  rewrite list_ascii_of_string_of_list_ascii in H.
  subst name. reflexivity.
Qed.

(** C5, amended. A line yields a declaration if and only if it consists of
    the marker [//go-sumtype:decl], a space or a tab, white space, a
    non-empty run of characters other than white space, which is the name
    declared and need not be an identifier, and white space to the end of
    the line; any other line yields nothing. A space and a tab after the
    marker yield the same. *)
Theorem sumTypeDecl_line :
  forall path lineNum decls line,
    (forall name,
       declLine line name ->
       sumTypeDeclSearch_loop path [line] lineNum decls
       = decls ++ [declOf path (S lineNum) name])
    /\ (~ (exists name, declLine line name) ->
        sumTypeDeclSearch_loop path [line] lineNum decls = decls)
    /\ (forall rest,
          line = list_ascii_of_string marker ++ space :: rest ->
          sumTypeDeclSearch_loop path [line] lineNum decls
          = sumTypeDeclSearch_loop path
              [list_ascii_of_string marker ++ tab :: rest] lineNum decls).
Proof.
  intros path lineNum decls line.
  destruct (sumTypeDeclSearch_loop_line path line lineNum decls) as [H1 H2].
  split; [exact H1|]. split; [exact H2|].
  intros rest ->.
  destruct (sumTypeDeclSearch_loop_line path
              (list_ascii_of_string marker ++ tab :: rest) lineNum decls)
    as [H3 H4].
  destruct (declLine_dec (list_ascii_of_string marker ++ space :: rest))
    as [[name Hn]|Hno].
  - rewrite (H1 name Hn). symmetry. apply H3.
    now apply declLine_space_tab.
  - rewrite (H2 Hno). symmetry. apply H4.
    intros [name Hn]. apply Hno. exists name.
    now apply declLine_space_tab.
Qed.

Lemma sumTypeDecl_line_witness :
  sumTypeDeclSearch_loop "shapes.go"
    [list_ascii_of_string marker ++ tab :: list_ascii_of_string " Shape "]
    2 []
  = [declOf "shapes.go" 3 (list_ascii_of_string "Shape")]
  /\ sumTypeDeclSearch_loop "shapes.go"
       [list_ascii_of_string "//go-sumtype:decl Shape Circle"] 2 []
     = [].
Proof.
  split.
  - apply (proj1 (sumTypeDecl_line "shapes.go" 2 [] _)
             (list_ascii_of_string "Shape")).
    exists tab, [space], [space].
    split; [reflexivity|]. split; [now right|].
    repeat split; try discriminate; repeat constructor.
  - apply (proj1 (proj2 (sumTypeDecl_line "shapes.go" 2 [] _))).
    intros [name Hn]. apply declLine_parseDirect in Hn.
    destruct Hn as [_ Hn]. vm_compute in Hn. discriminate.
Defined.

(** ** Lines without a name *)

Lemma sumTypeDeclSearch_loop_app path l1 :
  forall l2 lineNum decls,
    sumTypeDeclSearch_loop path (l1 ++ l2) lineNum decls
    = sumTypeDeclSearch_loop path l2 (lineNum + List.length l1)
        (sumTypeDeclSearch_loop path l1 lineNum decls).
Proof.
  induction l1 as [|line l1 IH]; intros l2 n decls; simpl.
  - now rewrite Nat.add_0_r.
  - rewrite Nat.add_succ_r.
    destruct (negb (isSumTypeDecl line)); [apply IH|].
    destruct (String.length (parseSumTypeDecl line) =? 0)%nat; apply IH.
Qed.

Lemma marker_only_no_name c ws :
  Forall isSpace ws ->
  ~ (exists name,
       declLine (list_ascii_of_string marker ++ c :: ws) name).
Proof.
  intros Hws (name & c' & ws1 & ws' & Hline & _ & _ & Hne & Hname & _).
  apply app_inv_head in Hline. injection Hline as _ ->.
  apply Forall_app in Hws. destruct Hws as [_ Hws].
  apply Forall_app in Hws. destruct Hws as [Hws _].
  destruct name as [|d name]; [now destruct Hne|].
  inversion Hws; inversion Hname; subst.
  unfold isSpace, nonSpace in *. congruence.
Qed.

(** C10. A line that consists of the marker, a space or a tab and white
    space to its end adds no declaration: the search goes on with the lines
    after it, counting the line. The call returns no error, and the log
    receives nothing but the error of the scanner, if there is one. *)
Theorem sumTypeDeclSearch_skips_marker_without_name :
  forall fsys path f pre line post err c ws,
    line = list_ascii_of_string marker ++ c :: ws ->
    c = space \/ c = tab ->
    Forall isSpace ws ->
    (forall lineNum decls,
       sumTypeDeclSearch_loop path (pre ++ line :: post) lineNum decls
       = sumTypeDeclSearch_loop path post (S (lineNum + List.length pre))
           (sumTypeDeclSearch_loop path pre lineNum decls))
    /\ (os.Open fsys path = Some f ->
        bufio.Lines (bufio.NewScanner f) = (pre ++ line :: post, err) ->
        sumTypeDeclSearch fsys path
        = (sumTypeDeclSearch_loop path post (S (List.length pre))
             (sumTypeDeclSearch_loop path pre 0 []),
           None,
           match err with
           | Some e => [scanErrorLog path e]
           | None => []
           end)).
Proof.
  intros fsys path f pre line post err c ws -> Hc Hws.
  assert (forall lineNum decls,
            sumTypeDeclSearch_loop path
              (pre ++ (list_ascii_of_string marker ++ c :: ws) :: post)
              lineNum decls
            = sumTypeDeclSearch_loop path post (S (lineNum + List.length pre))
                (sumTypeDeclSearch_loop path pre lineNum decls)) as Hloop.
  { intros n decls.
    rewrite sumTypeDeclSearch_loop_app.
    change (?l :: post) with ([l] ++ post).
    rewrite sumTypeDeclSearch_loop_app.
    rewrite (proj2 (sumTypeDeclSearch_loop_line path _ _ _)
               (marker_only_no_name c ws Hws)).
    simpl List.length. now rewrite Nat.add_1_r. }
  split; [exact Hloop|].
  intros Hopen Hlines. unfold sumTypeDeclSearch.
  rewrite Hopen, Hlines, Hloop.
  now destruct err.
Qed.

Lemma sumTypeDeclSearch_skips_marker_without_name_witness :
  sumTypeDeclSearch Sample.fsys "bare.go"
  = ([declOf "bare.go" 3 (list_ascii_of_string "Shape")], None, []).
Proof.
  destruct (sumTypeDeclSearch_skips_marker_without_name
              Sample.fsys "bare.go"
              (Sample.file (Sample.lines Sample.sourceBare))
              [list_ascii_of_string "package shapes"]
              (list_ascii_of_string "//go-sumtype:decl  ")
              [list_ascii_of_string "//go-sumtype:decl Shape"]
              None space [space]) as [_ H].
  - reflexivity.
  - now left.
  - repeat constructor.
  - apply H; reflexivity.
Defined.

(** ** The scanner *)

Lemma scanLines_chars max tail l :
  ~ In bufio.newline l ->
  forall data cur,
    bufio.scanLines max tail (l ++ data) cur
    = bufio.scanLines max tail data (rev l ++ cur).
Proof.
  induction l as [|c l IH]; intros Hnl data cur; [reflexivity|].
  simpl. destruct (Ascii.eqb_spec c bufio.newline) as [->|_].
  - destruct Hnl. now left.
  - rewrite IH by (intros H; apply Hnl; now right).
    now rewrite <- app_assoc.
Qed.

Lemma scanLines_line max tail l rest :
  ~ In bufio.newline l ->
  List.length l < max ->
  bufio.scanLines max tail (l ++ bufio.newline :: rest) []
  = let (tokens, err) := bufio.scanLines max tail rest [] in
    (bufio.dropCR l :: tokens, err).
Proof.
  intros Hnl Hlen. rewrite scanLines_chars by assumption.
  simpl. rewrite app_nil_r, length_rev, rev_involutive.
  now rewrite (proj2 (Nat.leb_gt _ _) Hlen).
Qed.

Lemma scanLines_full max tail data :
  0 < max ->
  forall cur,
    max <= List.length cur ->
    bufio.scanLines max tail data cur = ([], Some bufio.ErrTooLong).
Proof.
  intros Hmax. induction data as [|c data IH]; intros cur Hlen; simpl.
  - destruct cur as [|d cur]; [simpl in Hlen; lia|].
    now rewrite (proj2 (Nat.leb_le _ _) Hlen).
  - rewrite (proj2 (Nat.leb_le _ _) Hlen).
    destruct (Ascii.eqb c bufio.newline); [reflexivity|].
    apply IH. simpl. lia.
Qed.

Lemma scanLines_tooLong max tail long post :
  0 < max ->
  ~ In bufio.newline long ->
  max <= List.length long ->
  bufio.scanLines max tail (long ++ post) [] = ([], Some bufio.ErrTooLong).
Proof.
  intros Hmax Hnl Hlen. rewrite scanLines_chars by assumption.
  apply scanLines_full; [assumption|].
  now rewrite app_nil_r, length_rev.
Qed.

Lemma scanLines_lines max tail preLines data :
  Forall (fun l => ~ In bufio.newline l /\ List.length l < max) preLines ->
  bufio.scanLines max tail
    (List.concat (map (fun l => l ++ [bufio.newline]) preLines) ++ data) []
  = let (tokens, err) := bufio.scanLines max tail data [] in
    (map bufio.dropCR preLines ++ tokens, err).
Proof.
  induction 1 as [|l preLines [Hnl Hlen] _ IH]; simpl.
  - now destruct (bufio.scanLines max tail data []).
  - rewrite <- !app_assoc. simpl.
    rewrite scanLines_line by assumption. rewrite IH.
    now destruct (bufio.scanLines max tail data []).
Qed.

Lemma MaxScanTokenSize_pos : 0 < bufio.MaxScanTokenSize.
Proof. unfold bufio.MaxScanTokenSize. apply Nat.mul_pos_pos; lia. Qed.

Lemma notIn_existsb c l :
  existsb (Ascii.eqb c) l = false -> ~ In c l.
Proof.
  intros H Hin.
  assert (existsb (Ascii.eqb c) l = true) as Ht.
  { apply existsb_exists. exists c. split; [exact Hin|apply Ascii.eqb_refl]. }
  congruence.
Qed.

(** C9. When the scanner fails, [sumTypeDeclSearch] returns the declarations
    of the lines delivered before the failure, returns no error and writes
    the failure to the log. For a line of [MaxScanTokenSize] bytes or more
    that comes after complete lines of fewer bytes, these are the
    declarations of the lines before it, whatever the file holds after
    them; and [findSumTypeDecls] goes on with the files after this one. *)
Theorem sumTypeDeclSearch_scan_failure :
  forall fsys path f,
    os.Open fsys path = Some f ->
    (forall lines e,
       bufio.Lines (bufio.NewScanner f) = (lines, Some e) ->
       sumTypeDeclSearch fsys path
       = (sumTypeDeclSearch_loop path lines 0 [], None,
          [scanErrorLog path e]))
    /\ (forall preLines long post,
          os.Content f
          = List.concat (map (fun l => l ++ [bufio.newline]) preLines)
            ++ long ++ post ->
          Forall (fun l => ~ In bufio.newline l
                           /\ List.length l < bufio.MaxScanTokenSize)
                 preLines ->
          ~ In bufio.newline long ->
          bufio.MaxScanTokenSize <= List.length long ->
          sumTypeDeclSearch fsys path
          = (sumTypeDeclSearch_loop path (map bufio.dropCR preLines) 0 [],
             None,
             [scanErrorLog path bufio.ErrTooLong])
          /\ forall fset file pkg rest decls log,
               token.Filename (fset (ast.FilePos file)) = path ->
               filepath.Base path <> "C" ->
               findSumTypeDecls_loop fsys fset ((file, pkg) :: rest)
                 decls log
               = findSumTypeDecls_loop fsys fset rest
                   (decls
                    ++ map (setPackage pkg)
                         (sumTypeDeclSearch_loop path
                            (map bufio.dropCR preLines) 0 []))
                   (log ++ [scanErrorLog path bufio.ErrTooLong])).
Proof.
  intros fsys path f Hopen.
  assert (forall lines e,
            bufio.Lines (bufio.NewScanner f) = (lines, Some e) ->
            sumTypeDeclSearch fsys path
            = (sumTypeDeclSearch_loop path lines 0 [], None,
               [scanErrorLog path e])) as Hfail.
  { intros lines e Hlines. unfold sumTypeDeclSearch.
    now rewrite Hopen, Hlines. }
  split; [exact Hfail|].
  intros preLines long post Hcontent Hpre Hnl Hlen.
  assert (sumTypeDeclSearch fsys path
          = (sumTypeDeclSearch_loop path (map bufio.dropCR preLines) 0 [],
             None, [scanErrorLog path bufio.ErrTooLong])) as Hsearch.
  { apply Hfail. unfold bufio.Lines, bufio.NewScanner. simpl.
    rewrite Hcontent, scanLines_lines by assumption.
    rewrite scanLines_tooLong
      by (try apply MaxScanTokenSize_pos; assumption).
    now rewrite app_nil_r. }
  split; [exact Hsearch|].
  intros fset file pkg rest decls log Hname Hbase.
  simpl. rewrite Hname.
  destruct (String.eqb_spec (filepath.Base path) "C") as [E|_];
    [now destruct Hbase|].
  now rewrite Hsearch.
Qed.

Lemma short_line l :
  existsb (Ascii.eqb bufio.newline) l = false ->
  (List.length l <? 1024)%nat = true ->
  ~ In bufio.newline l /\ List.length l < bufio.MaxScanTokenSize.
Proof.
  intros H1 H2. split; [now apply notIn_existsb|].
  apply Nat.ltb_lt in H2. unfold bufio.MaxScanTokenSize. lia.
Qed.

Lemma sumTypeDeclSearch_scan_failure_witness :
  sumTypeDeclSearch Sample.fsys "long.go"
  = ([declOf "long.go" 3 (list_ascii_of_string "Shape")], None,
     ["scan error reading 'long.go': bufio.Scanner: token too long"]).
Proof.
  destruct (sumTypeDeclSearch_scan_failure
              Sample.fsys "long.go" (Sample.file Sample.sourceLong) eq_refl)
    as [_ H].
  destruct (H (map list_ascii_of_string Sample.source) Sample.longLine
              (Sample.lines ["//go-sumtype:decl Late"])) as [Hsearch _].
  - reflexivity.
  - repeat apply Forall_cons; try apply Forall_nil;
      apply short_line; reflexivity.
  - apply notIn_existsb. vm_compute. reflexivity.
  - unfold Sample.longLine. rewrite repeat_length. apply le_n.
  - exact Hsearch.
Defined.

(** * Further properties of the code *)

(** ** Names and the text of the error *)

Lemma sorted_permutation_unique (l1 : list string) :
  forall l2,
    StronglySorted (fun a b => String.leb a b = true) l1 ->
    StronglySorted (fun a b => String.leb a b = true) l2 ->
    Permutation l1 l2 ->
    l1 = l2.
Proof.
  induction l1 as [|a l1 IH]; intros l2 H1 H2 Hp.
  - symmetry. now apply Permutation_nil.
  - destruct l2 as [|b l2].
    + apply Permutation_sym, Permutation_nil in Hp. discriminate.
    + inversion H1 as [|? ? H1' Ha]; subst.
      inversion H2 as [|? ? H2' Hb]; subst.
      rewrite Forall_forall in Ha, Hb.
      assert (a = b) as ->.
      { assert (In a (b :: l2)) as Hina
          by (apply (Permutation_in _ Hp); now left).
        assert (In b (a :: l1)) as Hinb
          by (apply (Permutation_in _ (Permutation_sym Hp)); now left).
        destruct Hina as [->|Hina]; [reflexivity|].
        destruct Hinb as [->|Hinb]; [reflexivity|].
        apply String.leb_antisym; auto. }
      f_equal. apply IH; auto.
      now apply Permutation_cons_inv in Hp.
Qed.

Lemma Strings_Permutation l1 l2 :
  Permutation l1 l2 -> sort.Strings l1 = sort.Strings l2.
Proof.
  intros Hp. apply sorted_permutation_unique; try apply Strings_sorted.
  unfold sort.Strings.
  eapply Permutation_trans;
    [apply Permutation_sym, StringSort.Permuted_sort|].
  eapply Permutation_trans; [exact Hp|].
  apply StringSort.Permuted_sort.
Qed.

(** X1. [Names] is the list of the names of the missing variants put in
    order: a rearrangement of these names, each as often as it occurs, in
    non-decreasing order; it does not depend on the order in which the
    missing variants are held. *)
Theorem Names_sorted_rearrangement :
  forall e,
    Permutation (map types.Name (Missing e)) (Names e)
    /\ StronglySorted (fun a b => String.leb a b = true) (Names e)
    /\ forall e',
         Permutation (Missing e) (Missing e') -> Names e = Names e'.
Proof.
  intros e. unfold Names. split; [|split].
  - apply StringSort.Permuted_sort.
  - apply Strings_sorted.
  - intros e' Hp. apply Strings_Permutation. now apply Permutation_map.
Qed.

Lemma Names_sorted_rearrangement_witness :
  Names {| Pos := Sample.fset 100; Def := Sample.shapeDef;
           Missing := [Sample.square; Sample.circle] |}
  = Names {| Pos := Sample.fset 100; Def := Sample.shapeDef;
             Missing := [Sample.circle; Sample.square] |}.
Proof.
  apply (proj2 (proj2 (Names_sorted_rearrangement _))).
  apply perm_swap.
Defined.

(** X2. The text of an error is fixed by the position, the name of the sum
    type and the missing variants as a collection: two errors that agree
    on these have the same text, in whatever order each holds the
    variants. *)
Theorem Error_independent_of_order :
  forall e e',
    Pos e = Pos e' ->
    TypeName (Decl (Def e)) = TypeName (Decl (Def e')) ->
    Permutation (Missing e) (Missing e') ->
    Error e = Error e'.
Proof.
  intros e e' Hpos Hname Hp. unfold Error, Names.
  rewrite Hpos, Hname.
  now rewrite (Strings_Permutation _ _ (Permutation_map types.Name Hp)).
Qed.

Lemma Error_independent_of_order_witness :
  Error {| Pos := Sample.fset 100; Def := Sample.shapeDef;
           Missing := [Sample.square; Sample.circle] |}
  = "shapes.go:100:1: exhaustiveness check failed for sum type 'Shape': missing cases for Circle, Square"
  /\ Error {| Pos := Sample.fset 100; Def := Sample.shapeDef;
              Missing := [Sample.circle; Sample.square] |}
     = "shapes.go:100:1: exhaustiveness check failed for sum type 'Shape': missing cases for Circle, Square".
Proof.
  split; [reflexivity|].
  rewrite (Error_independent_of_order
             {| Pos := Sample.fset 100; Def := Sample.shapeDef;
                Missing := [Sample.circle; Sample.square] |}
             {| Pos := Sample.fset 100; Def := Sample.shapeDef;
                Missing := [Sample.square; Sample.circle] |}
             eq_refl eq_refl (perm_swap _ _ _)).
  reflexivity.
Defined.

(** ** The clauses of a switch *)

Lemma switchVariants_loop_flatten stmts :
  forall exprs hasDefault,
    forallb isCaseClause stmts = true ->
    switchVariants_loop stmts exprs hasDefault
    = Ok (exprs ++ clauseExprs stmts,
          hasDefault || existsb isDefaultClause stmts).
Proof.
  induction stmts as [|s stmts IH]; intros exprs hd Hall; simpl.
  - now rewrite app_nil_r, orb_false_r.
  - simpl in Hall. apply andb_true_iff in Hall. destruct Hall as [Hs Hall].
    destruct s as [| | | |[l|] body]; try discriminate; simpl.
    + rewrite IH by assumption. now rewrite <- app_assoc.
    + rewrite IH by assumption. now rewrite orb_true_r.
Qed.

Lemma switchVariants_loop_not_clause stmts :
  forall exprs hasDefault,
    forallb isCaseClause stmts = false ->
    switchVariants_loop stmts exprs hasDefault
    = Panic errInterfaceConversion.
Proof.
  induction stmts as [|s stmts IH]; intros exprs hd Hall; simpl in *.
  - discriminate.
  - destruct s as [| | | |[l|] body]; try reflexivity; simpl in Hall;
      now apply IH.
Qed.

(** X3. On a body of case clauses [switchVariants] returns the expressions
    of the clauses with types, those of a clause with several types one by
    one, in the order of the source, and tells whether some clause is a
    default clause; on a body with any other statement it panics. *)
Theorem switchVariants_flattens :
  forall swtch,
    (forallb isCaseClause (ast.Body swtch) = true ->
     switchVariants swtch
     = Ok (clauseExprs (ast.Body swtch),
           existsb isDefaultClause (ast.Body swtch)))
    /\ (forallb isCaseClause (ast.Body swtch) = false ->
        switchVariants swtch = Panic errInterfaceConversion).
Proof.
  intros swtch. unfold switchVariants. split; intros H.
  - now rewrite switchVariants_loop_flatten.
  - now apply switchVariants_loop_not_clause.
Qed.

Lemma switchVariants_flattens_witness :
  switchVariants Sample.swBoth
  = Ok ([ast.StarExpr (ast.Ident "Circle");
         ast.StarExpr (ast.Ident "Square");
         ast.StarExpr (ast.Ident "Circle")], false).
Proof.
  apply (proj1 (switchVariants_flattens Sample.swBoth)). reflexivity.
Defined.

(** ** The outcomes of [checkSwitch] *)

Lemma findTypeAssertExpr_Panic swtch msg :
  findTypeAssertExpr swtch = Panic msg ->
  msg = errIndexOutOfRange \/ msg = errInterfaceConversion.
Proof.
  unfold findTypeAssertExpr.
  destruct (ast.Assign swtch) as [lhs [|e rhs]|e| | |]; simpl;
    try (intros [= <-]; auto);
    destruct e; simpl; intros [= <-]; auto.
Qed.

Lemma variantTypes_loop_Panic pkg exprs :
  forall variantTypes msg,
    variantTypes_loop pkg exprs variantTypes = Panic msg ->
    msg = "not a star expression"
    \/ msg = errInterfaceConversion
    \/ msg = errNilDereference.
Proof.
  induction exprs as [|e exprs IH]; intros acc msg; simpl; [discriminate|].
  destruct e as [| | |y| |]; try (intros [= <-]; auto).
  destruct y as [name| | | | |]; try (intros [= <-]; auto).
  destruct (types.Lookup pkg name); [apply IH|intros [= <-]; auto].
Qed.

Lemma missingVariantsInSwitch_def pkg defs swtch def m :
  missingVariantsInSwitch pkg defs swtch = Ok (def, m) ->
  (def = None -> m = [])
  /\ forall d,
       def = Some d ->
       exists x sel obj,
         findTypeAssertExpr swtch = Ok (ast.SelectorExpr x sel)
         /\ types.Lookup pkg sel = Some obj
         /\ findDef defs (types.Type_ obj) = Some d.
Proof.
  unfold missingVariantsInSwitch.
  destruct (findTypeAssertExpr swtch) as [asserted|msg] eqn:Ea;
    [|discriminate].
  rewrite bind_Ok.
  destruct asserted as [| |x sel| | |]; try discriminate.
  destruct (types.Lookup pkg sel) as [obj|] eqn:El; [|discriminate].
  destruct (findDef defs (types.Type_ obj)) as [d|] eqn:Ed.
  - intros H.
    assert (def = Some d) as ->.
    { destruct (switchVariants swtch) as [[exprs hd]|]; [|discriminate].
      rewrite bind_Ok in H.
      destruct hd; simpl in H.
      - destruct (defaultClauseAlwaysPanics swtch) as [[|]|];
          simpl in H; try discriminate; try congruence.
        destruct (variantTypes_loop pkg exprs []); simpl in H; congruence.
      - destruct (variantTypes_loop pkg exprs []); simpl in H; congruence. }
    split; [discriminate|].
    intros d' [= <-]. exists x, sel, obj. auto.
  - intros [= <- <-]. split; [reflexivity|discriminate].
Qed.

(** X4. A panic of [checkSwitch] carries one of five messages: those of
    the two checks on the switched expression, that of a case that is no
    star expression, and those of a failed conversion, of an index out of
    range and of a nil dereference of the run time. The panic of
    [defaultClauseAlwaysPanics] on a switch without default clause is not
    among them, and neither is a nil dereference of the definition:
    [missingVariantsInSwitch] returns no missing variant without a
    definition. *)
Theorem checkSwitch_panics :
  forall fset pkg defs swtch,
    (forall msg,
       checkSwitch fset pkg defs swtch = Panic msg ->
       In msg [ "expected *ast.SelectExpr: *ast.SelectorExpr";
                "expected non nil obj";
                "not a star expression";
                errInterfaceConversion;
                errIndexOutOfRange;
                errNilDereference ])
    /\ checkSwitch fset pkg defs swtch
       <> Panic "switch statement has no default clause"
    /\ (forall m,
          missingVariantsInSwitch pkg defs swtch = Ok (None, m) -> m = []).
Proof.
  intros fset pkg defs swtch.
  assert (forall msg,
            missingVariantsInSwitch pkg defs swtch = Panic msg ->
            In msg [ "expected *ast.SelectExpr: *ast.SelectorExpr";
                     "expected non nil obj";
                     "not a star expression";
                     errInterfaceConversion;
                     errIndexOutOfRange ;
                     errNilDereference ]) as Hm.
  { intros msg. unfold missingVariantsInSwitch.
    destruct (findTypeAssertExpr swtch) as [asserted|m] eqn:Ea.
    - rewrite bind_Ok.
      destruct asserted as [| |x sel| | |];
        try (intros [= <-]; simpl; tauto).
      destruct (types.Lookup pkg sel) as [obj|];
        [|intros [= <-]; simpl; tauto].
      destruct (findDef defs (types.Type_ obj)) as [d|]; [|discriminate].
      unfold switchVariants.
      destruct (forallb isCaseClause (ast.Body swtch)) eqn:Hall.
      + rewrite switchVariants_loop_flatten, bind_Ok by assumption.
        simpl orb.
        destruct (existsb isDefaultClause (ast.Body swtch)) eqn:Hd.
        * destruct (defaultClauseAlwaysPanics_total swtch
                      (clauseExprs (ast.Body swtch)) true) as [p Hp];
            [|reflexivity|].
          { unfold switchVariants.
            rewrite switchVariants_loop_flatten by assumption.
            now rewrite Hd. }
          rewrite Hp. simpl. destruct p; simpl; [|discriminate].
          destruct (variantTypes_loop pkg (clauseExprs (ast.Body swtch)) [])
            eqn:Ev; [discriminate|].
          intros [= <-].
          destruct (variantTypes_loop_Panic _ _ _ _ Ev) as [->|[->| ->]];
            simpl; tauto.
        * simpl.
          destruct (variantTypes_loop pkg (clauseExprs (ast.Body swtch)) [])
            eqn:Ev; [discriminate|].
          intros [= <-].
          destruct (variantTypes_loop_Panic _ _ _ _ Ev) as [->|[->| ->]];
            simpl; tauto.
      + rewrite switchVariants_loop_not_clause by assumption.
        intros [= <-]. simpl; tauto.
    - intros [= <-].
      destruct (findTypeAssertExpr_Panic _ _ Ea) as [->| ->]; simpl; tauto. }
  assert (forall m,
            missingVariantsInSwitch pkg defs swtch = Ok (None, m) -> m = [])
    as Hnil.
  { intros m H. now apply (proj1 (missingVariantsInSwitch_def _ _ _ _ _ H)). }
  assert (forall msg,
            checkSwitch fset pkg defs swtch = Panic msg ->
            In msg [ "expected *ast.SelectExpr: *ast.SelectorExpr";
                     "expected non nil obj";
                     "not a star expression";
                     errInterfaceConversion;
                     errIndexOutOfRange;
                     errNilDereference ]) as Hc.
  { intros msg. unfold checkSwitch.
    destruct (missingVariantsInSwitch pkg defs swtch) as [[def m]|msg']
      eqn:E.
    - rewrite bind_Ok. destruct m as [|v m]; [discriminate|].
      destruct def as [d|]; [discriminate|].
      specialize (Hnil _ eq_refl). discriminate.
    - intros [= <-]. now apply Hm. }
  split; [exact Hc|]. split; [|exact Hnil].
  intros H. apply Hc in H. simpl in H.
  repeat (destruct H as [H|H]; [discriminate H|]). exact H.
Qed.

Lemma checkSwitch_panics_witness :
  checkSwitch Sample.fset Sample.pkg Sample.defs Sample.swNoStar
  = Panic "not a star expression"
  /\ In "not a star expression"
        [ "expected *ast.SelectExpr: *ast.SelectorExpr";
          "expected non nil obj";
          "not a star expression";
          errInterfaceConversion;
          errIndexOutOfRange;
          errNilDereference ].
Proof.
  split; [reflexivity|].
  apply (proj1 (checkSwitch_panics Sample.fset Sample.pkg Sample.defs
                  Sample.swNoStar)).
  reflexivity.
Defined.

(** X5. An error of [checkSwitch] is an [inexhaustiveError] at the position
    of the switch, with at least one missing variant, for the definition
    [findDef] returns on the type of the object the switched expression
    selects, which is a definition of the list whose type is identical to
    the underlying type of that type. *)
Theorem checkSwitch_error_sound :
  forall fset pkg defs swtch err,
    checkSwitch fset pkg defs swtch = Ok (Some err) ->
    exists e x sel obj,
      err = errInexhaustive e
      /\ Pos e = fset (ast.Switch swtch)
      /\ Missing e <> []
      /\ findTypeAssertExpr swtch = Ok (ast.SelectorExpr x sel)
      /\ types.Lookup pkg sel = Some obj
      /\ findDef defs (types.Type_ obj) = Some (Def e)
      /\ In (Def e) defs
      /\ types.Identical (types.Underlying (types.Type_ obj)) (Ty (Def e))
         = true.
Proof.
  intros fset pkg defs swtch err. unfold checkSwitch.
  destruct (missingVariantsInSwitch pkg defs swtch) as [[def m]|msg] eqn:E;
    [|discriminate].
  rewrite bind_Ok. destruct m as [|v m]; [discriminate|].
  destruct def as [d|]; [|discriminate].
  intros [= <-].
  destruct (proj2 (missingVariantsInSwitch_def _ _ _ _ _ E) d eq_refl)
    as (x & sel & obj & Ha & Hl & Hd).
  destruct (findDef_Some _ _ _ Hd) as [Hin Hid].
  eexists. exists x, sel, obj. simpl.
  repeat apply conj; try reflexivity; try assumption. discriminate.
Qed.

Lemma checkSwitch_error_sound_witness :
  exists e,
    checkSwitch Sample.fset Sample.pkg Sample.defs Sample.swFigure
    = Ok (Some (errInexhaustive e))
    /\ Def e = Sample.shapeDef.
Proof.
  destruct (checkSwitch_error_sound
              Sample.fset Sample.pkg Sample.defs Sample.swFigure _ eq_refl)
    as (e & x & sel & obj & He & _).
  injection He as <-. eexists. split; reflexivity.
Defined.

(** ** The switched expression *)

(** X6. [findTypeAssertExpr] returns an expression exactly on the two forms
    of the statement of a type switch, [switch x.(type)] and
    [switch v := x.(type)], where it returns [x]; and [checkSwitch] treats
    the two forms of one switch alike. *)
Theorem findTypeAssertExpr_forms :
  forall swtch,
    (forall x,
       findTypeAssertExpr swtch = Ok x
       <-> (exists ty,
              ast.Assign swtch = ast.ExprStmt (ast.TypeAssertExpr x ty))
           \/ (exists lhs ty rest,
                 ast.Assign swtch
                 = ast.AssignStmt lhs (ast.TypeAssertExpr x ty :: rest)))
    /\ (forall fset pkg defs x ty lhs rest,
          ast.Assign swtch = ast.ExprStmt (ast.TypeAssertExpr x ty) ->
          checkSwitch fset pkg defs swtch
          = checkSwitch fset pkg defs
              {| ast.Switch := ast.Switch swtch;
                 ast.Assign :=
                   ast.AssignStmt lhs (ast.TypeAssertExpr x ty :: rest);
                 ast.Body := ast.Body swtch |}).
Proof.
  intros swtch. split.
  - intros x. unfold findTypeAssertExpr. split.
    + destruct (ast.Assign swtch) as [lhs [|e rhs]|e| | |]; simpl;
        try discriminate;
        destruct e; simpl; try discriminate; intros [= ->].
      * right. eauto.
      * left. eauto.
    + intros [[ty ->]|(lhs & ty & rest & ->)]; reflexivity.
  - intros fset pkg defs x ty lhs rest H.
    unfold checkSwitch, missingVariantsInSwitch, findTypeAssertExpr,
      switchVariants, defaultClauseAlwaysPanics.
    rewrite H. reflexivity.
Qed.

Lemma findTypeAssertExpr_forms_witness :
  findTypeAssertExpr Sample.swCircle
  = Ok (ast.SelectorExpr (ast.Ident "x") "current")
  /\ checkSwitch Sample.fset Sample.pkg Sample.defs
       {| ast.Switch := 100;
          ast.Assign :=
            ast.ExprStmt
              (ast.TypeAssertExpr
                 (ast.SelectorExpr (ast.Ident "x") "current") None);
          ast.Body := [Sample.caseOf ["Circle"]] |}
     = checkSwitch Sample.fset Sample.pkg Sample.defs Sample.swCircle.
Proof.
  split.
  - apply (proj1 (findTypeAssertExpr_forms Sample.swCircle)).
    right. do 3 eexists. reflexivity.
  - exact (proj2 (findTypeAssertExpr_forms
                    {| ast.Switch := 100;
                       ast.Assign :=
                         ast.ExprStmt
                           (ast.TypeAssertExpr
                              (ast.SelectorExpr (ast.Ident "x") "current")
                              None);
                       ast.Body := [Sample.caseOf ["Circle"]] |})
             Sample.fset Sample.pkg Sample.defs
             (ast.SelectorExpr (ast.Ident "x") "current") None
             [ast.Ident "v"] [] eq_refl).
Defined.

(** ** The definition of a type *)

Lemma findDef_app defs1 defs2 needle :
  findDef (defs1 ++ defs2) needle
  = match findDef defs1 needle with
    | Some def => Some def
    | None => findDef defs2 needle
    end.
Proof.
  induction defs1 as [|d defs1 IH]; simpl; [reflexivity|].
  now destruct (types.Identical (types.Underlying needle) (Ty d)).
Qed.

(** X7. [findDef] returns the first definition of the list whose type is
    identical to the underlying type of the needle: no definition before it
    has such a type, and the definitions after it play no part, so that of
    two definitions of one type the second never serves. *)
Theorem findDef_first_match :
  forall defs needle def,
    findDef defs needle = Some def ->
    exists before after,
      defs = before ++ def :: after
      /\ (forall d, In d before ->
            types.Identical (types.Underlying needle) (Ty d) = false)
      /\ forall others, findDef (before ++ def :: others) needle = Some def.
Proof.
  induction defs as [|d defs IH]; intros needle def; simpl; [discriminate|].
  destruct (types.Identical (types.Underlying needle) (Ty d)) eqn:E.
  - intros [= <-]. exists [], defs. split; [reflexivity|].
    split; [intros d' []|]. intros others. simpl. now rewrite E.
  - intros H. destruct (IH _ _ H) as (before & after & -> & Hb & Ho).
    exists (d :: before), after. split; [reflexivity|]. split.
    + intros d' [<-|Hd]; auto.
    + intros others. simpl. rewrite E. apply Ho.
Qed.

Lemma findDef_first_match_witness :
  findDef (Sample.shapeDef
           :: {| Decl := Sample.decl "Figure" 9; Ty := Sample.iface;
                 Variants := [] |}
           :: []) Sample.figureT
  = Some Sample.shapeDef.
Proof.
  destruct (findDef_first_match Sample.defs Sample.figureT Sample.shapeDef
              eq_refl) as (before & after & Hdefs & _ & H).
  destruct before as [|d before]; [apply H|].
  exfalso. unfold Sample.defs in Hdefs. simpl in Hdefs.
  injection Hdefs as _ Hdefs. destruct before; discriminate.
Defined.

(** ** The types of the cases *)

Lemma variantTypes_loop_Ok pkg exprs :
  forall variantTypes tys,
    variantTypes_loop pkg exprs variantTypes = Ok tys
    <-> exists ts,
          map (caseType pkg) exprs = map Some ts
          /\ tys = variantTypes ++ ts.
Proof.
  induction exprs as [|e exprs IH]; intros acc tys; simpl.
  - split.
    + intros [= <-]. exists []. now rewrite app_nil_r.
    + intros [ts [Hts ->]]. destruct ts; [|discriminate].
      now rewrite app_nil_r.
  - destruct e as [| | |y| |];
      try (split; [discriminate|intros [[|t ts] [Hts _]]; discriminate]).
    destruct y as [name| | | | |];
      try (split; [discriminate|intros [[|t ts] [Hts _]]; discriminate]).
    simpl. destruct (types.Lookup pkg name) as [obj|]; simpl.
    + rewrite IH. split.
      * intros [ts [Hts ->]]. exists (types.Type_ obj :: ts).
        simpl. rewrite Hts. now rewrite <- app_assoc.
      * intros [[|t ts] [Hts ->]]; [discriminate|].
        injection Hts as <- Hts. exists ts. split; [exact Hts|].
        now rewrite <- app_assoc.
    + split; [discriminate|intros [[|t ts] [Hts _]]; discriminate].
Qed.

(** X8. The loop over the case expressions succeeds exactly when every
    expression is a star expression on the name of an object of the
    package, and then it returns the types of these objects, one for each
    expression, in the order of the expressions; a name is looked up in the
    scope of the package, so a case on a type the package does not define
    has no type. *)
Theorem variantTypes_loop_types :
  forall pkg exprs,
    (forall tys,
       variantTypes_loop pkg exprs [] = Ok tys
       <-> map (caseType pkg) exprs = map Some tys)
    /\ (forall tys,
          variantTypes_loop pkg exprs [] = Ok tys ->
          List.length tys = List.length exprs
          /\ Forall (fun e => resolvable pkg e = true) exprs)
    /\ ((exists e, In e exprs /\ resolvable pkg e = false) ->
        exists msg, variantTypes_loop pkg exprs [] = Panic msg).
Proof.
  intros pkg exprs.
  assert (forall tys,
            variantTypes_loop pkg exprs [] = Ok tys
            <-> map (caseType pkg) exprs = map Some tys) as H.
  { intros tys. rewrite variantTypes_loop_Ok. simpl. split.
    - now intros [ts [Hts ->]].
    - intros Hts. now exists tys. }
  split; [exact H|]. split.
  - intros tys Htys. apply H in Htys. split.
    + apply (f_equal (@List.length _)) in Htys.
      now rewrite !length_map in Htys.
    + clear H. revert tys Htys.
      induction exprs as [|e exprs IH]; intros tys Htys; constructor.
      * destruct tys as [|t tys]; [discriminate|].
        injection Htys as He _.
        destruct e as [| | |y| |]; try discriminate.
        destruct y as [name| | | | |]; try discriminate.
        simpl in *. now destruct (types.Lookup pkg name).
      * destruct tys as [|t tys]; [discriminate|].
        injection Htys as _ Htys. eauto.
  - intros [e [Hin Hres]].
    now apply (variantTypes_loop_unresolvable pkg e).
Qed.

Lemma variantTypes_loop_types_witness :
  variantTypes_loop Sample.pkg
    [ast.StarExpr (ast.Ident "Square"); ast.StarExpr (ast.Ident "Circle")] []
  = Ok [Sample.squareT; Sample.circleT]
  /\ exists msg,
       variantTypes_loop Sample.pkg
         [ast.StarExpr (ast.Ident "Square");
          ast.StarExpr (ast.Ident "Triangle")] []
       = Panic msg.
Proof.
  split.
  - apply (proj1 (variantTypes_loop_types Sample.pkg _)). reflexivity.
  - apply (proj2 (proj2 (variantTypes_loop_types Sample.pkg _))).
    exists (ast.StarExpr (ast.Ident "Triangle")).
    split; [simpl; auto|reflexivity].
Defined.

(** ** The loop of [run] *)

Lemma run_loop_first_error fset defs pre swtch pkg post err :
  Forall (fun p => checkSwitch fset (snd p) defs (fst p) = Ok None) pre ->
  checkSwitch fset pkg defs swtch = Ok (Some err) ->
  run_loop fset defs (pre ++ (swtch, pkg) :: post) = Ok (Some err).
Proof.
  intros Hpre He.
  induction Hpre as [|[s p] pre Hs _ IH]; simpl.
  - now rewrite He.
  - simpl in Hs. now rewrite Hs, bind_Ok.
Qed.

Lemma run_loop_nil fset defs switchToPkg :
  run_loop fset defs switchToPkg = Ok None
  <-> Forall (fun p => checkSwitch fset (snd p) defs (fst p) = Ok None)
             switchToPkg.
Proof.
  induction switchToPkg as [|[s p] l IH]; simpl.
  - split; [constructor|reflexivity].
  - destruct (checkSwitch fset p defs s) as [[e|]|m] eqn:E; simpl.
    + split; [discriminate|]. intros H. inversion H as [|? ? Hs _]; subst.
      simpl in Hs. congruence.
    + rewrite IH. split.
      * intros H. constructor; [exact E|exact H].
      * intros H. now inversion H.
    + split; [discriminate|]. intros H. inversion H as [|? ? Hs _]; subst.
      simpl in Hs. congruence.
Qed.

(** X9. The loop of [run] over the switches stops at the first switch on
    which [checkSwitch] returns an error and returns that error: the
    switches after it are not looked at, not even one on which
    [checkSwitch] would panic, so that a run reports one inexhaustive
    switch at most. It returns nil exactly when [checkSwitch] returns nil
    on every switch. *)
Theorem run_loop_stops_at_first_error :
  forall fset defs,
    (forall pre swtch pkg post err,
       Forall (fun p => checkSwitch fset (snd p) defs (fst p) = Ok None)
              pre ->
       checkSwitch fset pkg defs swtch = Ok (Some err) ->
       run_loop fset defs (pre ++ (swtch, pkg) :: post) = Ok (Some err))
    /\ (forall switchToPkg,
          run_loop fset defs switchToPkg = Ok None
          <-> Forall (fun p => checkSwitch fset (snd p) defs (fst p)
                               = Ok None) switchToPkg).
Proof.
  intros fset defs. split.
  - intros. now apply run_loop_first_error.
  - apply run_loop_nil.
Qed.

Lemma run_loop_stops_at_first_error_witness :
  run_loop Sample.fset Sample.defs
    [(Sample.swBoth, Sample.pkg); (Sample.swCircle, Sample.pkg);
     (Sample.swIdent, Sample.pkg); (Sample.swFigure, Sample.pkg)]
  = checkSwitch Sample.fset Sample.pkg Sample.defs Sample.swCircle.
Proof.
  apply (proj1 (run_loop_stops_at_first_error Sample.fset Sample.defs)
           [(Sample.swBoth, Sample.pkg)] Sample.swCircle Sample.pkg
           [(Sample.swIdent, Sample.pkg); (Sample.swFigure, Sample.pkg)]).
  - repeat constructor.
  - reflexivity.
Defined.

(** ** The declarations of a file *)

Lemma declLine_name_unique line name name' :
  declLine line name -> declLine line name' -> name = name'.
Proof.
  intros H H'. apply declLine_parseDirect in H, H'.
  destruct H as [_ H], H' as [_ H']. congruence.
Qed.

Lemma sumTypeDeclSearch_loop_cons path line rest lineNum decls :
  sumTypeDeclSearch_loop path (line :: rest) lineNum decls
  = sumTypeDeclSearch_loop path rest (S lineNum)
      (sumTypeDeclSearch_loop path [line] lineNum decls).
Proof.
  change (line :: rest) with ([line] ++ rest).
  rewrite sumTypeDeclSearch_loop_app. simpl List.length.
  now rewrite Nat.add_1_r.
Qed.

Lemma sumTypeDeclSearch_loop_In path lines :
  forall lineNum decls d,
    In d (sumTypeDeclSearch_loop path lines lineNum decls)
    <-> In d decls
        \/ exists i line name,
             nth_error lines i = Some line
             /\ declLine line name
             /\ d = declOf path (lineNum + S i) name.
Proof.
  induction lines as [|line lines IH]; intros n decls d.
  - simpl. split; [auto|]. intros [H|(i & l & nm & H & _)]; [exact H|].
    now destruct i.
  - rewrite sumTypeDeclSearch_loop_cons, IH.
    assert (forall i nm, declOf path (S n + S i) nm
                         = declOf path (n + S (S i)) nm) as Hshift
      by (intros; f_equal; lia).
    assert (forall nm, declOf path (S n) nm = declOf path (n + 1) nm)
      as Hone by (intros; f_equal; lia).
    destruct (sumTypeDeclSearch_loop_line path line n decls) as [H1 H2].
    destruct (declLine_dec line) as [[name Hname]|Hno].
    + rewrite (H1 name Hname), in_app_iff. simpl In. split.
      * intros [[H|[<-|[]]]|(i & l & nm & Hi & Hl & ->)].
        -- now left.
        -- right. exists 0, line, name. rewrite Hone. auto.
        -- right. exists (S i), l, nm. rewrite Hshift. auto.
      * intros [H|(i & l & nm & Hi & Hl & ->)]; [now left; left|].
        destruct i as [|i]; simpl in Hi.
        -- injection Hi as <-.
           rewrite (declLine_name_unique _ _ _ Hl Hname), <- Hone.
           left. right. now left.
        -- right. exists i, l, nm. rewrite Hshift. auto.
    + rewrite (H2 Hno). split.
      * intros [H|(i & l & nm & Hi & Hl & ->)]; [now left|].
        right. exists (S i), l, nm. rewrite Hshift. auto.
      * intros [H|(i & l & nm & Hi & Hl & ->)]; [now left|].
        destruct i as [|i]; simpl in Hi.
        -- injection Hi as <-. destruct Hno. now exists nm.
        -- right. exists i, l, nm. rewrite Hshift. auto.
Qed.

Lemma sumTypeDeclSearch_decls fsys path f lines err :
  os.Open fsys path = Some f ->
  bufio.Lines (bufio.NewScanner f) = (lines, err) ->
  fst (fst (sumTypeDeclSearch fsys path))
  = sumTypeDeclSearch_loop path lines 0 []
  /\ snd (fst (sumTypeDeclSearch fsys path)) = None.
Proof.
  intros Hopen Hlines. unfold sumTypeDeclSearch.
  rewrite Hopen, Hlines. now destruct err.
Qed.

(** X10. The declarations [sumTypeDeclSearch] returns for a file are those
    of its lines: a declaration is returned exactly when it is the one of
    a line the scanner delivers that declares a name, with the path of the
    file and the number of the line, the first line being line 1. *)
Theorem sumTypeDeclSearch_sound_complete :
  forall fsys path f lines err,
    os.Open fsys path = Some f ->
    bufio.Lines (bufio.NewScanner f) = (lines, err) ->
    forall d,
      In d (fst (fst (sumTypeDeclSearch fsys path)))
      <-> exists i line name,
            nth_error lines i = Some line
            /\ declLine line name
            /\ d = declOf path (S i) name.
Proof.
  intros fsys path f lines err Hopen Hlines d.
  rewrite (proj1 (sumTypeDeclSearch_decls _ _ _ _ _ Hopen Hlines)).
  rewrite sumTypeDeclSearch_loop_In. simpl. split.
  - now intros [[]|H].
  - intros H. now right.
Qed.

Lemma sumTypeDeclSearch_sound_complete_witness :
  In (declOf "shapes.go" 3 (list_ascii_of_string "Shape"))
     (fst (fst (sumTypeDeclSearch Sample.fsys "shapes.go"))).
Proof.
  apply (sumTypeDeclSearch_sound_complete
           Sample.fsys "shapes.go" (Sample.file (Sample.lines Sample.source))
           (map list_ascii_of_string Sample.source) None eq_refl eq_refl).
  exists 2, (list_ascii_of_string "//go-sumtype:decl Shape"),
    (list_ascii_of_string "Shape").
  split; [reflexivity|]. split; [|reflexivity].
  exists space, [], []. split; [reflexivity|]. split; [now left|].
  repeat split; try discriminate; repeat constructor.
Defined.

Lemma StronglySorted_snoc {A : Type} (R : A -> A -> Prop) l x :
  StronglySorted R l ->
  Forall (fun a => R a x) l ->
  StronglySorted R (l ++ [x]).
Proof.
  induction 1 as [|a l Hs IH Ha]; intros Hall; simpl.
  - repeat constructor.
  - inversion Hall; subst. constructor; [auto|].
    apply Forall_app. split; [exact Ha|]. now repeat constructor.
Qed.

Lemma sumTypeDeclSearch_loop_increasing path lines :
  forall lineNum decls,
    StronglySorted (fun a b => Line a < Line b) decls ->
    Forall (fun a => Line a <= lineNum) decls ->
    StronglySorted (fun a b => Line a < Line b)
      (sumTypeDeclSearch_loop path lines lineNum decls).
Proof.
  induction lines as [|line lines IH]; intros n decls Hs Hall;
    [exact Hs|].
  simpl.
  assert (Forall (fun a => Line a <= S n) decls) as Hall'
    by (revert Hall; apply Forall_impl; intros; lia).
  destruct (negb (isSumTypeDecl line)); [now apply IH|].
  destruct (String.length (parseSumTypeDecl line) =? 0)%nat;
    [now apply IH|].
  apply IH.
  - apply StronglySorted_snoc; [exact Hs|].
    revert Hall. apply Forall_impl. simpl. intros; lia.
  - apply Forall_app. split; [exact Hall'|]. now repeat constructor.
Qed.

(** X11. The declarations of a file come in the order of the lines, with
    strictly increasing line numbers, so no line is returned twice; each
    has the path of the file, no package yet, a line number between 1 and
    the number of lines delivered, and a name that is not empty and holds
    no white space. *)
Theorem sumTypeDeclSearch_decls_wellformed :
  forall fsys path f lines err,
    os.Open fsys path = Some f ->
    bufio.Lines (bufio.NewScanner f) = (lines, err) ->
    StronglySorted (fun a b => Line a < Line b)
      (fst (fst (sumTypeDeclSearch fsys path)))
    /\ forall d,
         In d (fst (fst (sumTypeDeclSearch fsys path))) ->
         Path d = path
         /\ Package d = None
         /\ 1 <= Line d <= List.length lines
         /\ TypeName d <> EmptyString
         /\ Forall nonSpace (list_ascii_of_string (TypeName d)).
Proof.
  intros fsys path f lines err Hopen Hlines.
  rewrite (proj1 (sumTypeDeclSearch_decls _ _ _ _ _ Hopen Hlines)).
  split.
  - apply sumTypeDeclSearch_loop_increasing; constructor.
  - intros d Hd. apply sumTypeDeclSearch_loop_In in Hd.
    destruct Hd as [[]|(i & line & name & Hi & Hl & ->)].
    destruct Hl as (c & ws & ws' & _ & _ & _ & Hne & Hname & _).
    simpl. repeat apply conj; try reflexivity.
    + lia.
    + apply Nat.le_succ_l. apply nth_error_Some. congruence.
    + destruct name; [now destruct Hne|discriminate].
    + now rewrite list_ascii_of_string_of_list_ascii.
Qed.

Lemma sumTypeDeclSearch_decls_wellformed_witness :
  map Line (fst (fst (sumTypeDeclSearch Sample.fsys "unknown.go"))) = [3; 5]
  /\ StronglySorted (fun a b => Line a < Line b)
       (fst (fst (sumTypeDeclSearch Sample.fsys "unknown.go"))).
Proof.
  split; [reflexivity|].
  apply (sumTypeDeclSearch_decls_wellformed
           Sample.fsys "unknown.go"
           (Sample.file (Sample.lines Sample.sourceUnknown))
           (map list_ascii_of_string Sample.sourceUnknown) None
           eq_refl eq_refl).
Defined.

(** ** Ends of lines *)

Lemma dropCR_CR l : bufio.dropCR (l ++ [bufio.carriageReturn]) = l.
Proof.
  unfold bufio.dropCR. rewrite rev_app_distr. simpl.
  now rewrite rev_involutive.
Qed.

Lemma declLine_CR l name :
  declLine (l ++ [bufio.carriageReturn]) name <-> declLine l name.
Proof.
  split.
  - intros (c & ws & ws' & Hline & Hc & Hws & Hne & Hname & Hws').
    destruct (exists_last Hne) as (name' & y & ->).
    destruct ws' as [|w ws'] using rev_ind.
    + exfalso. rewrite app_nil_r in Hline.
      change (l ++ [bufio.carriageReturn]
              = list_ascii_of_string marker ++ (c :: ws) ++ name' ++ [y])
        in Hline.
      rewrite !app_assoc in Hline. apply app_inj_tail in Hline.
      destruct Hline as [_ <-].
      apply Forall_app in Hname. destruct Hname as [_ Hy].
      inversion Hy as [|? ? Hcr _]. discriminate Hcr.
    + clear IHws'.
      change (l ++ [bufio.carriageReturn]
              = list_ascii_of_string marker
                ++ (c :: ws) ++ (name' ++ [y]) ++ ws' ++ [w]) in Hline.
      rewrite !app_assoc in Hline. apply app_inj_tail in Hline.
      destruct Hline as [-> _].
      apply Forall_app in Hws'. destruct Hws' as [Hws' _].
      exists c, ws, ws'. rewrite <- !app_assoc. simpl. auto 10.
  - intros (c & ws & ws' & -> & Hc & Hws & Hne & Hname & Hws').
    exists c, ws, (ws' ++ [bufio.carriageReturn]).
    rewrite <- !app_assoc. simpl. rewrite <- !app_assoc.
    repeat split; auto.
    apply Forall_app. split; [exact Hws'|]. now repeat constructor.
Qed.

Lemma sumTypeDeclSearch_loop_line_ext path l1 l2 lineNum decls :
  (forall name, declLine l1 name <-> declLine l2 name) ->
  sumTypeDeclSearch_loop path [l1] lineNum decls
  = sumTypeDeclSearch_loop path [l2] lineNum decls.
Proof.
  intros H.
  destruct (sumTypeDeclSearch_loop_line path l1 lineNum decls) as [H1 H2].
  destruct (sumTypeDeclSearch_loop_line path l2 lineNum decls) as [H3 H4].
  destruct (declLine_dec l1) as [[name Hn]|Hno].
  - rewrite (H1 name Hn). symmetry. apply H3. now apply H.
  - rewrite (H2 Hno). symmetry. apply H4.
    intros [name Hn]. apply Hno. exists name. now apply H.
Qed.

Lemma declLine_dropCR l name :
  declLine (bufio.dropCR l) name <-> declLine l name.
Proof.
  unfold bufio.dropCR.
  destruct (rev l) as [|c before] eqn:E; [reflexivity|].
  destruct (Ascii.eqb_spec c bufio.carriageReturn) as [->|_];
    [|reflexivity].
  apply (f_equal (@rev ascii)) in E. rewrite rev_involutive in E.
  simpl in E. subst l. symmetry. apply declLine_CR.
Qed.

Lemma sumTypeDeclSearch_loop_dropCR path lines :
  forall lineNum decls,
    sumTypeDeclSearch_loop path (map bufio.dropCR lines) lineNum decls
    = sumTypeDeclSearch_loop path lines lineNum decls.
Proof.
  induction lines as [|l lines IH]; intros n decls; [reflexivity|].
  simpl map.
  rewrite (sumTypeDeclSearch_loop_cons path (bufio.dropCR l) _ n decls).
  rewrite (sumTypeDeclSearch_loop_cons path l lines n decls).
  rewrite IH. f_equal.
  apply sumTypeDeclSearch_loop_line_ext. intros name.
  apply declLine_dropCR.
Qed.

Lemma Lines_joinLines f lines eol :
  os.ReadErr f = None ->
  os.Content f = joinLines eol lines ->
  eol = [bufio.newline] \/ eol = [bufio.carriageReturn; bufio.newline] ->
  Forall (fun l => ~ In bufio.newline l
                   /\ S (List.length l) < bufio.MaxScanTokenSize) lines ->
  bufio.Lines (bufio.NewScanner f) = (map bufio.dropCR lines, None)
  \/ bufio.Lines (bufio.NewScanner f) = (lines, None).
Proof.
  intros Herr Hcontent Heol Hlines.
  unfold bufio.Lines, bufio.NewScanner. simpl. rewrite Herr, Hcontent.
  unfold joinLines. destruct Heol as [-> | ->].
  - left. rewrite <- (app_nil_r (List.concat _)).
    rewrite scanLines_lines.
    + simpl. now rewrite app_nil_r.
    + revert Hlines. apply Forall_impl.
      intros l [H1 H2]. split; [exact H1|lia].
  - right.
    replace (map (fun l => l ++ [bufio.carriageReturn; bufio.newline]) lines)
      with (map (fun l => l ++ [bufio.newline])
                (map (fun l => l ++ [bufio.carriageReturn]) lines)).
    + rewrite <- (app_nil_r (List.concat _)).
      rewrite scanLines_lines.
      * simpl. rewrite app_nil_r, map_map.
        assert (map (fun l => bufio.dropCR (l ++ [bufio.carriageReturn])) lines
                = lines) as Hid.
        { rewrite <- (map_id lines) at 2. apply map_ext. apply dropCR_CR. }
        now rewrite Hid.
      * rewrite Forall_map. revert Hlines. apply Forall_impl.
        intros l [H1 H2]. split.
        -- intros Hin. apply in_app_or in Hin.
           destruct Hin as [Hin|[Hin|[]]]; [auto|discriminate].
        -- rewrite length_app, Nat.add_1_r. exact H2.
    + rewrite map_map. apply map_ext. intros l. now rewrite <- app_assoc.
Qed.

(** X12. A file whose lines end in a newline or in a carriage return and
    a newline, each line shorter than the limit of the scanner, yields the
    declarations of its lines, no error and no log: the two ends of line
    give the same declarations, and a carriage return at the end of a line
    never enters a name. *)
Theorem sumTypeDeclSearch_ends_of_lines :
  forall fsys path f lines eol,
    os.Open fsys path = Some f ->
    os.ReadErr f = None ->
    os.Content f = joinLines eol lines ->
    eol = [bufio.newline] \/ eol = [bufio.carriageReturn; bufio.newline] ->
    Forall (fun l => ~ In bufio.newline l
                     /\ S (List.length l) < bufio.MaxScanTokenSize) lines ->
    sumTypeDeclSearch fsys path
    = (sumTypeDeclSearch_loop path lines 0 [], None, []).
Proof.
  intros fsys path f lines eol Hopen Herr Hcontent Heol Hlines.
  unfold sumTypeDeclSearch. rewrite Hopen.
  destruct (Lines_joinLines f lines eol Herr Hcontent Heol Hlines)
    as [-> | ->]; [|reflexivity].
  now rewrite sumTypeDeclSearch_loop_dropCR.
Qed.

Lemma sumTypeDeclSearch_ends_of_lines_witness :
  sumTypeDeclSearch Sample2.fsys "dos.go"
  = ([declOf "dos.go" 3 (list_ascii_of_string "Shape")], None, [])
  /\ sumTypeDeclSearch Sample2.fsys "shapes.go"
     = ([declOf "shapes.go" 3 (list_ascii_of_string "Shape")], None, []).
Proof.
  assert (Forall (fun l => ~ In bufio.newline l
                           /\ S (List.length l) < bufio.MaxScanTokenSize)
                 Sample2.sourceLines) as Hlines.
  { repeat apply Forall_cons; try apply Forall_nil;
      (split; [apply notIn_existsb; reflexivity|]);
      unfold bufio.MaxScanTokenSize; simpl List.length; lia. }
  split.
  - apply (sumTypeDeclSearch_ends_of_lines
             Sample2.fsys "dos.go" _ Sample2.sourceLines
             [bufio.carriageReturn; bufio.newline] eq_refl eq_refl eq_refl
             (or_intror eq_refl) Hlines).
  - apply (sumTypeDeclSearch_ends_of_lines
             Sample2.fsys "shapes.go" _ Sample2.sourceLines
             [bufio.newline] eq_refl eq_refl eq_refl
             (or_introl eq_refl) Hlines).
Defined.

(** ** The files of a pass *)

Lemma list_ascii_of_string_app a b :
  list_ascii_of_string (a ++ b)%string
  = list_ascii_of_string a ++ list_ascii_of_string b.
Proof. induction a as [|c a IH]; simpl; [reflexivity|now rewrite IH]. Qed.

Lemma lastElement_app l rest :
  ~ In filepath.separator l ->
  filepath.lastElement (l ++ filepath.separator :: rest) = l.
Proof.
  induction l as [|c l IH]; intros H; simpl.
  - reflexivity.
  - destruct (Ascii.eqb_spec c filepath.separator) as [->|_].
    + destruct H. now left.
    + rewrite IH; [reflexivity|]. intros Hin. apply H. now right.
Qed.

Lemma lastElement_all l :
  ~ In filepath.separator l -> filepath.lastElement l = l.
Proof.
  induction l as [|c l IH]; intros H; simpl; [reflexivity|].
  destruct (Ascii.eqb_spec c filepath.separator) as [->|_].
  - destruct H. now left.
  - rewrite IH; [reflexivity|]. intros Hin. apply H. now right.
Qed.

Lemma Base_element dir name :
  name <> EmptyString ->
  ~ In filepath.separator (list_ascii_of_string name) ->
  filepath.Base (dir ++ "/" ++ name) = name
  /\ filepath.Base name = name.
Proof.
  intros Hne Hsep.
  assert (forall p, p <> EmptyString ->
            filepath.Base p
            = match rev (filepath.lastElement
                           (filepath.dropSeparators
                              (rev (list_ascii_of_string p)))) with
              | [] => "/"
              | c :: elem => string_of_list_ascii (c :: elem)
              end) as Hbase
    by (intros [|c p] Hp; [now destruct Hp|reflexivity]).
  assert (~ In filepath.separator (rev (list_ascii_of_string name)))
    as Hsep' by (now rewrite <- in_rev).
  assert (exists c t, rev (list_ascii_of_string name) = c :: t
                      /\ c <> filepath.separator) as (c & t & Hrev & Hc).
  { destruct (rev (list_ascii_of_string name)) as [|c t] eqn:E.
    - apply (f_equal (@rev ascii)) in E. rewrite rev_involutive in E.
      destruct name; [now destruct Hne|discriminate].
    - exists c, t. split; [reflexivity|].
      intros ->. apply Hsep'. now left. }
  assert (forall l, filepath.dropSeparators (c :: l) = c :: l) as Hdrop.
  { intros l. simpl.
    destruct (Ascii.eqb_spec c filepath.separator); [contradiction|].
    reflexivity. }
  assert (match list_ascii_of_string name with
          | [] => "/"
          | c :: elem => string_of_list_ascii (c :: elem)
          end = name) as Hname.
  { destruct name; [now destruct Hne|]. simpl.
    now rewrite string_of_list_ascii_of_string. }
  split.
  - rewrite Hbase by (destruct dir; discriminate).
    assert (rev (list_ascii_of_string (dir ++ "/" ++ name)%string)
            = rev (list_ascii_of_string name)
              ++ filepath.separator :: rev (list_ascii_of_string dir))
      as ->.
    { rewrite list_ascii_of_string_app.
      change (list_ascii_of_string ("/" ++ name)%string)
        with (filepath.separator :: list_ascii_of_string name).
      rewrite rev_app_distr. simpl. now rewrite <- app_assoc. }
    rewrite Hrev. simpl app. rewrite Hdrop.
    change (c :: t ++ filepath.separator :: rev (list_ascii_of_string dir))
      with ((c :: t) ++ filepath.separator :: rev (list_ascii_of_string dir)).
    rewrite <- Hrev.
    rewrite lastElement_app by assumption.
    now rewrite rev_involutive.
  - rewrite Hbase by assumption.
    rewrite Hrev, Hdrop, <- Hrev.
    rewrite lastElement_all by assumption.
    now rewrite rev_involutive.
Qed.

(** X13. A file whose path has the last element [C], the pseudo file of
    cgo, is passed over by [findSumTypeDecls]: the file is not opened, so
    whether it exists plays no part, and it adds neither declarations nor
    log. *)
Theorem findSumTypeDecls_passes_over_cgo :
  forall fsys fset file pkg rest decls log,
    (token.Filename (fset (ast.FilePos file)) = "C"
     \/ exists dir,
          token.Filename (fset (ast.FilePos file)) = (dir ++ "/C")%string) ->
    findSumTypeDecls_loop fsys fset ((file, pkg) :: rest) decls log
    = findSumTypeDecls_loop fsys fset rest decls log.
Proof.
  intros fsys fset file pkg rest decls log H. simpl.
  assert (filepath.Base (token.Filename (fset (ast.FilePos file))) = "C")
    as ->.
  { assert ("C" <> EmptyString) as Hne by discriminate.
    assert (~ In filepath.separator (list_ascii_of_string "C")) as Hsep
      by (intros [H'|[]]; discriminate).
    destruct H as [-> | [dir ->]].
    - apply (proj2 (Base_element EmptyString "C" Hne Hsep)).
    - apply (proj1 (Base_element dir "C" Hne Hsep)). }
  reflexivity.
Qed.

Lemma findSumTypeDecls_passes_over_cgo_witness :
  findSumTypeDecls Sample2.fsys Sample2.fset
    [(Sample2.fileC, Sample.pkg); (Sample2.fileShapes, Sample.pkg)]
  = findSumTypeDecls Sample2.fsys Sample2.fset
      [(Sample2.fileShapes, Sample.pkg)].
Proof.
  apply (findSumTypeDecls_passes_over_cgo
           Sample2.fsys Sample2.fset Sample2.fileC Sample.pkg
           [(Sample2.fileShapes, Sample.pkg)] [] []).
  right. exists "/tmp/go-build". reflexivity.
Defined.

Lemma findSumTypeDecls_loop_app fsys fset l1 :
  forall l2 decls log,
    findSumTypeDecls_loop fsys fset (l1 ++ l2) decls log
    = match findSumTypeDecls_loop fsys fset l1 decls log with
      | (d, None, lg) => findSumTypeDecls_loop fsys fset l2 d lg
      | (d, Some err, lg) => (d, Some err, lg)
      end.
Proof.
  induction l1 as [|[file pkg] l1 IH]; intros l2 decls log; simpl.
  - reflexivity.
  - destruct (String.eqb (filepath.Base _) "C"); [apply IH|].
    destruct (sumTypeDeclSearch fsys _) as [[fileDecls [err|]] l];
      [reflexivity|apply IH].
Qed.

Lemma sumTypeDeclSearch_error fsys path :
  snd (fst (sumTypeDeclSearch fsys path))
  = match os.Open fsys path with
    | Some _ => None
    | None => Some (errOpen path)
    end.
Proof.
  unfold sumTypeDeclSearch. destruct (os.Open fsys path); [|reflexivity].
  destruct (bufio.Lines _) as [lines [e|]]; reflexivity.
Qed.

Lemma findSumTypeDecls_loop_readable fsys fset ftp :
  Forall (fun fp =>
            filepath.Base (token.Filename (fset (ast.FilePos (fst fp))))
            = "C"
            \/ os.Open fsys (token.Filename (fset (ast.FilePos (fst fp))))
               <> None) ftp ->
  forall decls log,
    exists d lg, findSumTypeDecls_loop fsys fset ftp decls log = (d, None, lg).
Proof.
  induction 1 as [|[file pkg] ftp Hf _ IH]; intros decls log; simpl.
  - eauto.
  - simpl in Hf.
    destruct (String.eqb_spec
                (filepath.Base (token.Filename (fset (ast.FilePos file))))
                "C") as [E|E]; [apply IH|].
    destruct Hf as [Hf|Hf]; [contradiction|].
    pose proof (sumTypeDeclSearch_error fsys
                  (token.Filename (fset (ast.FilePos file)))) as Herr.
    destruct (os.Open fsys _); [|now destruct Hf].
    destruct (sumTypeDeclSearch fsys _) as [[fileDecls err] l].
    simpl in Herr. subst err. apply IH.
Qed.

(** X14. A file that cannot be opened ends the search: when the files
    visited before it are read, [findSumTypeDecls] returns the error of
    [os.Open] and no declaration, those of the files read before
    included, and [run] returns this error without a look at any
    switch. *)
Theorem run_fails_on_unreadable_file :
  forall fsys pass before file after,
    Files pass = before ++ file :: after ->
    Forall (fun f =>
              filepath.Base (token.Filename (Fset pass (ast.FilePos f)))
              = "C"
              \/ os.Open fsys (token.Filename (Fset pass (ast.FilePos f)))
                 <> None) before ->
    filepath.Base (token.Filename (Fset pass (ast.FilePos file))) <> "C" ->
    os.Open fsys (token.Filename (Fset pass (ast.FilePos file))) = None ->
    exists log,
      findSumTypeDecls fsys (Fset pass)
        (map (fun f => (f, Pkg pass)) (Files pass))
      = ([], Some (errOpen (token.Filename (Fset pass (ast.FilePos file)))),
         log)
      /\ run fsys pass
         = (Ok (Some (errOpen
                        (token.Filename (Fset pass (ast.FilePos file))))),
            log).
Proof.
  intros fsys pass before file after Hfiles Hbefore Hbase Hopen.
  assert (exists log,
            findSumTypeDecls fsys (Fset pass)
              (map (fun f => (f, Pkg pass)) (Files pass))
            = ([], Some (errOpen
                           (token.Filename (Fset pass (ast.FilePos file)))),
               log)) as [log Hlog].
  { unfold findSumTypeDecls. rewrite Hfiles, map_app. simpl map.
    rewrite findSumTypeDecls_loop_app.
    destruct (findSumTypeDecls_loop_readable fsys (Fset pass)
                (map (fun f => (f, Pkg pass)) before)) with
      (decls := @nil sumTypeDecl) (log := @nil string) as (d & lg & ->).
    - rewrite Forall_map. exact Hbefore.
    - simpl.
      destruct (String.eqb_spec
                  (filepath.Base
                     (token.Filename (Fset pass (ast.FilePos file)))) "C");
        [contradiction|].
      unfold sumTypeDeclSearch. rewrite Hopen. eauto. }
  exists log. split; [exact Hlog|].
  unfold run. now rewrite Hlog.
Qed.

Lemma run_fails_on_unreadable_file_witness :
  exists log,
    run Sample2.fsys
      (Sample2.pass [Sample2.fileC; Sample2.fileShapes; Sample2.fileGone;
                     Sample2.fileUnknown]
         [Sample.swCircle])
    = (Ok (Some (errOpen "gone.go")), log).
Proof.
  destruct (run_fails_on_unreadable_file
              Sample2.fsys
              (Sample2.pass [Sample2.fileC; Sample2.fileShapes;
                             Sample2.fileGone; Sample2.fileUnknown]
                 [Sample.swCircle])
              [Sample2.fileC; Sample2.fileShapes] Sample2.fileGone
              [Sample2.fileUnknown]) as [log [_ H]].
  - reflexivity.
  - apply Forall_cons; [left; reflexivity|].
    apply Forall_cons; [right; discriminate|].
    apply Forall_nil.
  - discriminate.
  - reflexivity.
  - exists log. exact H.
Defined.

Lemma sumTypeDeclSearch_Path fsys path d :
  In d (fst (fst (sumTypeDeclSearch fsys path))) ->
  Path d = path /\ Package d = None.
Proof.
  unfold sumTypeDeclSearch.
  destruct (os.Open fsys path) as [f|]; [|intros []].
  destruct (bufio.Lines (bufio.NewScanner f)) as [lines err].
  assert (In d (sumTypeDeclSearch_loop path lines 0 []) ->
          Path d = path /\ Package d = None) as H.
  { intros Hd. apply sumTypeDeclSearch_loop_In in Hd.
    destruct Hd as [[]|(i & line & name & _ & _ & ->)]. now split. }
  destruct err; exact H.
Qed.

Lemma findSumTypeDecls_loop_decls fsys fset ftp :
  forall decls log res lg,
    findSumTypeDecls_loop fsys fset ftp decls log = (res, None, lg) ->
    res = decls ++ flat_map (declsOfFile fsys fset) ftp.
Proof.
  induction ftp as [|[file pkg] ftp IH]; intros decls log res lg; simpl.
  - intros [= <- _]. now rewrite app_nil_r.
  - unfold declsOfFile at 1. simpl.
    destruct (String.eqb (filepath.Base _) "C"); [apply IH|].
    destruct (sumTypeDeclSearch fsys _) as [[fileDecls [err|]] l];
      [discriminate|].
    intros H. apply IH in H. simpl. now rewrite app_assoc.
Qed.

(** X15. When every file is read, the declarations of a pass are those of
    its files, file after file in the order in which the files are
    visited, each with the package of its file and the path of its file;
    the pseudo file of cgo contributes none. *)
Theorem findSumTypeDecls_of_files :
  forall fsys fset ftp decls log,
    findSumTypeDecls fsys fset ftp = (decls, None, log) ->
    decls = flat_map (declsOfFile fsys fset) ftp
    /\ forall d,
         In d decls ->
         exists file pkg,
           In (file, pkg) ftp
           /\ Package d = Some pkg
           /\ Path d = token.Filename (fset (ast.FilePos file))
           /\ filepath.Base (Path d) <> "C".
Proof.
  intros fsys fset ftp decls log H.
  apply findSumTypeDecls_loop_decls in H. simpl in H. subst decls.
  split; [reflexivity|].
  intros d Hd. apply in_flat_map in Hd.
  destruct Hd as [[file pkg] [Hin Hd]]. exists file, pkg.
  unfold declsOfFile in Hd. simpl in Hd.
  destruct (String.eqb_spec
              (filepath.Base (token.Filename (fset (ast.FilePos file))))
              "C") as [E|E]; [destruct Hd|].
  apply in_map_iff in Hd. destruct Hd as [d0 [<- Hd0]].
  apply sumTypeDeclSearch_Path in Hd0. destruct Hd0 as [Hp _].
  simpl. rewrite Hp. auto.
Qed.

Lemma findSumTypeDecls_of_files_witness :
  map (fun d => (TypeName d, Path d, Line d))
      (flat_map (declsOfFile Sample2.fsys Sample2.fset)
         [(Sample2.fileUnknown, Sample.pkg);
          (Sample2.fileC, Sample.pkg);
          (Sample2.fileShapes, Sample.pkg)])
  = [("Shape", "unknown.go", 3); ("Polygon", "unknown.go", 5);
     ("Shape", "shapes.go", 3)]
  /\ fst (fst (findSumTypeDecls Sample2.fsys Sample2.fset
                 [(Sample2.fileUnknown, Sample.pkg);
                  (Sample2.fileC, Sample.pkg);
                  (Sample2.fileShapes, Sample.pkg)]))
     = flat_map (declsOfFile Sample2.fsys Sample2.fset)
         [(Sample2.fileUnknown, Sample.pkg);
          (Sample2.fileC, Sample.pkg);
          (Sample2.fileShapes, Sample.pkg)].
Proof.
  split; [reflexivity|].
  apply (proj1 (findSumTypeDecls_of_files
                  Sample2.fsys Sample2.fset
                  [(Sample2.fileUnknown, Sample.pkg);
                   (Sample2.fileC, Sample.pkg);
                   (Sample2.fileShapes, Sample.pkg)]
                  _ [] eq_refl)).
Defined.

(** ** The location of a declaration *)

Lemma string_of_uint_digits d :
  Forall (fun c => isDigitChar c = true)
         (list_ascii_of_string (DecimalString.NilEmpty.string_of_uint d)).
Proof.
  induction d; simpl; constructor; auto.
Qed.

Lemma Itoa_injective n m : strconv.Itoa n = strconv.Itoa m -> n = m.
Proof.
  unfold strconv.Itoa. intros H.
  apply (f_equal DecimalString.NilEmpty.uint_of_string) in H.
  rewrite !DecimalString.NilEmpty.usu in H. injection H as H.
  apply (f_equal Nat.of_uint) in H.
  now rewrite !DecimalNat.Unsigned.of_to in H.
Qed.

Lemma app_separator_unique {A : Type} (c : A) l1 :
  forall l2 t1 t2,
    l1 ++ c :: t1 = l2 ++ c :: t2 ->
    ~ In c l1 -> ~ In c l2 ->
    l1 = l2 /\ t1 = t2.
Proof.
  induction l1 as [|a l1 IH]; intros [|b l2] t1 t2 H H1 H2; simpl in H.
  - injection H as ->. auto.
  - injection H as <- _. destruct H2. now left.
  - injection H as -> _. destruct H1. now left.
  - injection H as <- H.
    destruct (IH l2 t1 t2 H) as [-> ->]; auto;
      intros Hin; [apply H1|apply H2]; now right.
Qed.

(** X16. The location of a declaration tells the path and the line: two
    declarations with the same location have the same path and the same
    line number, whatever characters the path holds. *)
Theorem Location_injective :
  forall d d',
    Location d = Location d' ->
    Path d = Path d' /\ Line d = Line d'.
Proof.
  intros d d' H. unfold Location in H.
  apply (f_equal list_ascii_of_string) in H.
  rewrite !list_ascii_of_string_app in H.
  change (list_ascii_of_string ":") with [":"%char] in H.
  apply (f_equal (@rev ascii)) in H.
  rewrite !rev_app_distr in H. simpl in H.
  rewrite <- !app_assoc in H. simpl in H.
  assert (forall n,
            ~ In ":"%char
                 (rev (list_ascii_of_string (strconv.Itoa n)))) as Hdig.
  { intros n Hin. apply in_rev in Hin.
    pose proof (string_of_uint_digits (Nat.to_uint n)) as Hall.
    rewrite Forall_forall in Hall. specialize (Hall _ Hin).
    discriminate Hall. }
  destruct (app_separator_unique _ _ _ _ _ H (Hdig _) (Hdig _))
    as [Hline Hpath].
  split.
  - apply (f_equal (@rev ascii)) in Hpath.
    rewrite !rev_involutive in Hpath.
    apply (f_equal string_of_list_ascii) in Hpath.
    now rewrite !string_of_list_ascii_of_string in Hpath.
  - apply (f_equal (@rev ascii)) in Hline.
    rewrite !rev_involutive in Hline.
    apply (f_equal string_of_list_ascii) in Hline.
    rewrite !string_of_list_ascii_of_string in Hline.
    now apply Itoa_injective.
Qed.

Lemma Location_injective_witness :
  Location (Sample.decl "Shape" 12) = "shapes.go:12"
  /\ Line (Sample.decl "Shape" 12) = Line (Sample.decl "Polygon" 12).
Proof.
  split; [reflexivity|].
  apply (Location_injective (Sample.decl "Shape" 12)
           (Sample.decl "Polygon" 12)).
  reflexivity.
Defined.

(** ** The regular expression alone *)

Lemma matchLine_parseDirect line name :
  matchLine line name -> parseDirect line = Some [name].
Proof.
  intros (ws & ws' & -> & Hwne & Hws & Hne & Hname & Hws').
  unfold parseDirect. rewrite stripPrefix_app. cbv zeta.
  assert (regexp.runLength regexp.NonSpace ws' = 0) as Hws'0.
  { destruct Hws' as [|d ws' Hd _]; [reflexivity|].
    simpl. unfold isSpace in Hd. now rewrite Hd. }
  assert (regexp.runLength regexp.Space (name ++ ws') = 0) as Hname0.
  { destruct Hname as [|d name Hd _]; [now destruct Hne|].
    simpl. unfold nonSpace in Hd. now rewrite Hd. }
  rewrite (runLength_app regexp.Space ws (name ++ ws')) by assumption.
  rewrite skipn_length_app.
  rewrite (runLength_app regexp.NonSpace name ws')
    by (try apply nonSpace_class; assumption).
  rewrite skipn_length_app, firstn_length_app.
  rewrite (runLength_all regexp.Space ws') by assumption.
  rewrite skipn_all.
  destruct ws; [now destruct Hwne|].
  destruct name; [now destruct Hne|reflexivity].
Qed.

Lemma parseDirect_matchLine line caps :
  parseDirect line = Some caps ->
  exists name, caps = [name] /\ matchLine line name.
Proof.
  unfold parseDirect.
  destruct (regexp.stripPrefix (list_ascii_of_string marker) line)
    as [s1|] eqn:Estrip; [|discriminate].
  apply stripPrefix_Some in Estrip. subst line.
  cbv zeta.
  set (n1 := regexp.runLength regexp.Space s1).
  set (s2 := skipn n1 s1).
  set (n2 := regexp.runLength regexp.NonSpace s2).
  set (s3 := skipn n2 s2).
  destruct (1 <=? n1)%nat eqn:E1; [|discriminate].
  destruct (1 <=? n2)%nat eqn:E2; [|discriminate].
  destruct (skipn (regexp.runLength regexp.Space s3) s3) eqn:E3;
    [|discriminate].
  intros [= <-]. exists (firstn n2 s2). split; [reflexivity|].
  apply Nat.leb_le in E1, E2.
  pose proof (runLength_firstn regexp.Space s1) as H1. fold n1 in H1.
  pose proof (runLength_firstn regexp.NonSpace s2) as H2. fold n2 in H2.
  pose proof (runLength_firstn regexp.Space s3) as H3.
  pose proof (firstn_skipn (regexp.runLength regexp.Space s3) s3) as H3'.
  rewrite E3, app_nil_r in H3'. rewrite H3' in H3.
  exists (firstn n1 s1), s3. repeat apply conj.
  - f_equal. rewrite <- (firstn_skipn n1 s1) at 1. f_equal.
    fold s2. unfold s3. now rewrite firstn_skipn.
  - pose proof (runLength_le regexp.Space s1) as Hle. fold n1 in Hle.
    destruct s1; simpl in *; [lia|].
    destruct n1; [lia|discriminate].
  - exact H1.
  - pose proof (runLength_le regexp.NonSpace s2) as Hle. fold n2 in Hle.
    destruct s2; simpl in *; [lia|].
    destruct n2; [lia|discriminate].
  - revert H2. apply Forall_impl. intros d Hd. simpl in Hd.
    now apply negb_true_iff in Hd.
  - exact H3.
Qed.

(** X17. [parseSumTypeDecl] returns the name of a line that consists of the
    marker, white space of any kind, the name and white space, and the
    empty string on every other line. It accepts more than a declaration:
    a line declares a name exactly when [parseSumTypeDecl] finds the name
    and [isSumTypeDecl] holds, which asks for a space or a tab after the
    marker. *)
Theorem parseSumTypeDecl_matches :
  forall line,
    (forall name,
       matchLine line name ->
       parseSumTypeDecl line = string_of_list_ascii name)
    /\ (~ (exists name, matchLine line name) ->
        parseSumTypeDecl line = EmptyString)
    /\ (forall name,
          declLine line name
          <-> isSumTypeDecl line = true /\ matchLine line name).
Proof.
  intros line. split; [|split].
  - intros name H. rewrite parseSumTypeDecl_direct.
    now rewrite (matchLine_parseDirect _ _ H).
  - intros Hno. rewrite parseSumTypeDecl_direct.
    destruct (parseDirect line) as [caps|] eqn:E; [|reflexivity].
    destruct (parseDirect_matchLine _ _ E) as [name [_ Hn]].
    destruct Hno. now exists name.
  - intros name. split.
    + intros H. pose proof (declLine_parseDirect _ _ H) as [Hd Hp].
      split; [exact Hd|].
      destruct (parseDirect_matchLine _ _ Hp) as [name' [Heq Hm]].
      injection Heq as <-. exact Hm.
    + intros [Hd Hm]. pose proof (matchLine_parseDirect _ _ Hm) as Hp.
      destruct (parseDirect_declLine _ _ Hd Hp) as [name' [Heq Hl]].
      injection Heq as <-. exact Hl.
Qed.

Lemma parseSumTypeDecl_matches_witness :
  parseSumTypeDecl
    (list_ascii_of_string marker
     ++ "012"%char :: list_ascii_of_string "Shape")
  = "Shape"
  /\ isSumTypeDecl
       (list_ascii_of_string marker
        ++ "012"%char :: list_ascii_of_string "Shape")
     = false.
Proof.
  split; [|reflexivity].
  apply (proj1 (parseSumTypeDecl_matches _)
           (list_ascii_of_string "Shape")).
  exists ["012"%char], [].
  split; [reflexivity|].
  repeat split; try discriminate; repeat constructor.
Defined.

(** ** analyzer.go, second version *)

Lemma V2_sumTypeDeclSearch_loop_names path lines :
  forall lineNum decls decls2,
    map V2.TypeName decls2 = map TypeName decls ->
    map V2.TypeName (V2.sumTypeDeclSearch_loop lines decls2)
    = map TypeName (sumTypeDeclSearch_loop path lines lineNum decls).
Proof.
  induction lines as [|line lines IH]; intros n decls decls2 H; simpl.
  - exact H.
  - destruct (negb (isSumTypeDecl line)); [now apply IH|].
    destruct (String.length (parseSumTypeDecl line) =? 0)%nat;
      [now apply IH|].
    apply IH. rewrite !map_app. simpl. now rewrite H.
Qed.

(** X18. The search of the second version finds in a file the names the
    search of the first version finds, in the same order, and writes the
    same to the log; it leaves the positions to its caller, and its error
    is that of opening the file or, the file read, that of closing it. *)
Theorem V2_sumTypeDeclSearch_same_names :
  forall env fsys path,
    map V2.TypeName (fst (fst (V2.sumTypeDeclSearch env fsys path)))
    = map TypeName (fst (fst (sumTypeDeclSearch fsys path)))
    /\ snd (V2.sumTypeDeclSearch env fsys path)
       = snd (sumTypeDeclSearch fsys path)
    /\ Forall (fun d => V2.Package d = None /\ V2.Pos d = 0)
              (fst (fst (V2.sumTypeDeclSearch env fsys path)))
    /\ snd (fst (V2.sumTypeDeclSearch env fsys path))
       = match os.Open fsys path with
         | None => Some (V2.openError env path)
         | Some f => V2.Close env f
         end.
Proof.
  intros env fsys path.
  unfold V2.sumTypeDeclSearch, sumTypeDeclSearch.
  destruct (os.Open fsys path) as [f|]; [|repeat split; constructor].
  destruct (bufio.Lines (bufio.NewScanner f)) as [lines err].
  assert (Forall (fun d => V2.Package d = None /\ V2.Pos d = 0)
                 (V2.sumTypeDeclSearch_loop lines [])) as Hall.
  { assert (forall acc,
              Forall (fun d => V2.Package d = None /\ V2.Pos d = 0) acc ->
              Forall (fun d => V2.Package d = None /\ V2.Pos d = 0)
                     (V2.sumTypeDeclSearch_loop lines acc)) as H.
    { induction lines as [|line lines IH]; intros acc Hacc; simpl;
        [exact Hacc|].
      destruct (negb (isSumTypeDecl line)); [now apply IH|].
      destruct (String.length (parseSumTypeDecl line) =? 0)%nat;
        [now apply IH|].
      apply IH, Forall_app. split; [exact Hacc|]. now repeat constructor. }
    apply H. constructor. }
  pose proof (V2_sumTypeDeclSearch_loop_names path lines 0 [] [] eq_refl)
    as Hnames.
  destruct err; simpl; auto.
Qed.

Lemma V2_findSumTypeDecls_loop_reports env fsys fset ftp :
  forall decls reports log,
    let r := V2.findSumTypeDecls_loop env fsys fset ftp decls reports log in
    (snd (fst r) = reports /\ exists more, fst (fst r) = decls ++ more)
    \/ (fst (fst r) = []
        /\ exists file pkg err,
             In (file, pkg) ftp
             /\ snd (fst (V2.sumTypeDeclSearch env fsys
                            (token.Filename (fset (ast.FilePos file)))))
                = Some err
             /\ snd (fst r) = reports ++ [V2.readFailure file err]).
Proof.
  induction ftp as [|[file pkg] ftp IH]; intros decls reports log; simpl.
  - left. split; [reflexivity|]. exists []. now rewrite app_nil_r.
  - destruct (String.eqb (filepath.Base _) "C").
    + destruct (IH decls reports log) as [H|(H & f & p & e & Hin & He & Hr)].
      * now left.
      * right. split; [exact H|]. exists f, p, e. auto.
    + destruct (V2.sumTypeDeclSearch env fsys _)
        as [[fileDecls [err|]] l] eqn:E.
      * right. simpl. split; [reflexivity|].
        exists file, pkg, err. rewrite E. auto.
      * destruct (IH (decls ++ map (V2.locate file pkg) fileDecls)
                    reports (log ++ l))
          as [[Hr [more Hm]]|(H & f & p & e & Hin & He & Hr)].
        -- left. split; [exact Hr|].
           exists (map (V2.locate file pkg) fileDecls ++ more).
           now rewrite app_assoc.
        -- right. split; [exact H|]. exists f, p, e. auto.
Qed.

(** X19. [findSumTypeDecls] of the second version reports one diagnostic
    at most. When it reports one, for a file whose search has failed, at
    the position of that file, it returns no declaration at all, the
    declarations of the files read before included, and [run] returns nil
    with this one report: no definition is looked for and no switch is
    checked. *)
Theorem V2_read_failure_drops_declarations :
  forall env fsys pass,
    let ftp := map (fun f => (f, Pkg pass)) (Files pass) in
    let r := V2.findSumTypeDecls env fsys (Fset pass) ftp in
    snd (fst r) = []
    \/ (fst (fst r) = []
        /\ (exists file err,
              In file (Files pass)
              /\ snd (fst (V2.sumTypeDeclSearch env fsys
                             (token.Filename
                                (Fset pass (ast.FilePos file)))))
                 = Some err
              /\ snd (fst r) = [V2.readFailure file err])
        /\ V2.run env fsys pass = (snd (fst r), snd r, Ok None)).
Proof.
  intros env fsys pass ftp r.
  destruct (V2_findSumTypeDecls_loop_reports env fsys (Fset pass) ftp
              [] [] [])
    as [[Hr _]|(Hd & file & pkg & err & Hin & He & Hr)].
  - now left.
  - right. fold (V2.findSumTypeDecls env fsys (Fset pass) ftp) in Hd, Hr.
    fold r in Hd, Hr. split; [exact Hd|]. split.
    + exists file, err. split; [|auto].
      unfold ftp in Hin. apply in_map_iff in Hin.
      destruct Hin as [f [[= <- _] Hf]]. exact Hf.
    + unfold V2.run. fold ftp. fold r.
      destruct r as [[decls reports] log]. simpl in *. now subst decls.
Qed.

Lemma V2_read_failure_drops_declarations_witness :
  V2.run Sample2.env Sample2.fsys
    (Sample2.pass [Sample2.fileShapes; Sample2.fileGone] [Sample.swCircle])
  = ([V2.readFailure Sample2.fileGone
        "open gone.go: no such file or directory"],
     ["returning after sumTypeDeclSearch"], Ok None).
Proof.
  destruct (V2_read_failure_drops_declarations
              Sample2.env Sample2.fsys
              (Sample2.pass [Sample2.fileShapes; Sample2.fileGone]
                 [Sample.swCircle]))
    as [H|(_ & _ & H)].
  - discriminate H.
  - exact H.
Defined.

Lemma V2_findSumTypeDecls_loop_located env fsys fset (P : V2.sumTypeDecl -> Prop) ftp :
  (forall file pkg d, In (file, pkg) ftp -> P (V2.locate file pkg d)) ->
  forall decls reports log,
    Forall P decls ->
    Forall P (fst (fst (V2.findSumTypeDecls_loop env fsys fset ftp
                          decls reports log))).
Proof.
  induction ftp as [|[file pkg] ftp IH]; intros HP decls reports log Hacc;
    simpl; [exact Hacc|].
  assert (forall file' pkg' d,
            In (file', pkg') ftp -> P (V2.locate file' pkg' d)) as HP'
    by (intros; apply HP; now right).
  destruct (String.eqb (filepath.Base _) "C"); [now apply IH|].
  destruct (V2.sumTypeDeclSearch env fsys _) as [[fileDecls [err|]] l];
    [constructor|].
  apply IH; [exact HP'|].
  apply Forall_app. split; [exact Hacc|].
  apply Forall_forall. intros d Hd. apply in_map_iff in Hd.
  destruct Hd as [d0 [<- _]]. apply HP. now left.
Qed.

(** X20. Every declaration [findSumTypeDecls] of the second version returns
    has the package of a file of the pass, and for position that of the
    object of its name in this package, or the position of the file when
    the package defines no such name. *)
Theorem V2_declarations_located :
  forall env fsys fset ftp d,
    In d (fst (fst (V2.findSumTypeDecls env fsys fset ftp))) ->
    exists file pkg,
      In (file, pkg) ftp
      /\ V2.Package d = Some pkg
      /\ (forall obj,
            types.Lookup pkg (V2.TypeName d) = Some obj ->
            V2.Pos d = types.ObjPos obj)
      /\ (types.Lookup pkg (V2.TypeName d) = None ->
          V2.Pos d = ast.FilePos file).
Proof.
  intros env fsys fset ftp d Hd.
  set (P := fun d : V2.sumTypeDecl =>
              exists file pkg,
                In (file, pkg) ftp
                /\ V2.Package d = Some pkg
                /\ (forall obj,
                      types.Lookup pkg (V2.TypeName d) = Some obj ->
                      V2.Pos d = types.ObjPos obj)
                /\ (types.Lookup pkg (V2.TypeName d) = None ->
                    V2.Pos d = ast.FilePos file)).
  assert (forall file pkg d0,
            In (file, pkg) ftp -> P (V2.locate file pkg d0)) as HP.
  { intros file pkg d0 Hin. exists file, pkg. simpl.
    split; [exact Hin|]. split; [reflexivity|]. split.
    - intros obj ->. reflexivity.
    - intros ->. reflexivity. }
  pose proof (V2_findSumTypeDecls_loop_located env fsys fset P ftp HP
                [] [] [] (Forall_nil _)) as H.
  rewrite Forall_forall in H. exact (H d Hd).
Qed.

Lemma V2_declarations_located_witness :
  map (fun d => (V2.TypeName d, V2.Pos d))
      (fst (fst (V2.findSumTypeDecls Sample2.env Sample2.fsys Sample2.fset
                   [(Sample2.fileUnknown, Sample.pkg)])))
  = [("Shape", 10); ("Polygon", 3000)]
  /\ exists file pkg,
       In (file, pkg) [(Sample2.fileUnknown, Sample.pkg)]
       /\ ast.FilePos file = 3000.
Proof.
  split; [reflexivity|].
  destruct (V2_declarations_located
              Sample2.env Sample2.fsys Sample2.fset
              [(Sample2.fileUnknown, Sample.pkg)]
              {| V2.Package := Some Sample.pkg; V2.TypeName := "Polygon";
                 V2.Pos := 3000 |})
    as (file & pkg & Hin & Hpkg & _ & Hpos).
  - right. left. reflexivity.
  - exists file, pkg. split; [exact Hin|].
    simpl in Hpkg. injection Hpkg as <-.
    symmetry. apply Hpos. reflexivity.
Defined.

Lemma V2_run_loop_all env defs switches :
  forall reports,
    Forall (fun swtch => snd (V2.checkSwitch env defs swtch) = Ok tt)
           switches ->
    V2.run_loop env defs switches reports
    = (reports
       ++ flat_map (fun swtch => fst (V2.checkSwitch env defs swtch))
            switches,
       Ok tt).
Proof.
  induction switches as [|swtch switches IH]; intros reports Hall; simpl.
  - now rewrite app_nil_r.
  - inversion Hall as [|? ? Hs Hrest]; subst.
    destruct (V2.checkSwitch env defs swtch) as [rs [[]|msg]];
      simpl in Hs; [|discriminate].
    rewrite IH by assumption. simpl. now rewrite app_assoc.
Qed.

Lemma V2_run_loop_result env defs switches :
  forall reports,
    snd (V2.run_loop env defs switches reports) = Ok tt
    \/ exists msg, snd (V2.run_loop env defs switches reports) = Panic msg.
Proof.
  induction switches as [|swtch switches IH]; intros reports; simpl.
  - now left.
  - destruct (V2.checkSwitch env defs swtch) as [rs [[]|msg]];
      [apply IH|].
    right. now exists msg.
Qed.

(** X21. [run] of the second version never returns an error. With at
    least one declaration and one definition, and no panic in the
    functions it calls, it checks every switch, in the order of the
    traversal, whatever the switches before have reported, and what it
    reports is what the search, the resolution and the checks of the
    switches report, in this order. *)
Theorem V2_run_checks_every_switch :
  forall env fsys pass,
    (forall err, snd (V2.run env fsys pass) <> Ok (Some err))
    /\ (forall decls reports log rs defs,
          V2.findSumTypeDecls env fsys (Fset pass)
            (map (fun f => (f, Pkg pass)) (Files pass))
          = (decls, reports, log) ->
          decls <> [] ->
          V2.findSumTypeDefs env decls = (rs, Ok defs) ->
          defs <> [] ->
          Forall (fun swtch => snd (V2.checkSwitch env defs swtch) = Ok tt)
                 (Switches pass) ->
          V2.run env fsys pass
          = (reports ++ rs
             ++ flat_map (fun swtch => fst (V2.checkSwitch env defs swtch))
                  (Switches pass),
             log, Ok None)).
Proof.
  intros env fsys pass. split.
  - intros err. unfold V2.run.
    destruct (V2.findSumTypeDecls env fsys (Fset pass) _)
      as [[decls reports] log].
    destruct (List.length decls =? 0)%nat; [discriminate|].
    destruct (V2.findSumTypeDefs env decls) as [rs [defs|msg]];
      [|discriminate].
    destruct (List.length defs =? 0)%nat; [discriminate|].
    destruct (V2.run_loop env defs (Switches pass) (reports ++ rs))
      as [all [u|msg]]; discriminate.
  - intros decls reports log rs defs Hdecls Hne Hdefs Hdne Hall.
    unfold V2.run. rewrite Hdecls.
    destruct decls as [|d decls]; [now destruct Hne|]. simpl.
    rewrite Hdefs.
    destruct defs as [|def defs]; [now destruct Hdne|]. simpl.
    rewrite V2_run_loop_all by assumption.
    now rewrite app_assoc.
Qed.

Lemma V2_run_checks_every_switch_witness :
  V2.run Sample2.env Sample2.fsys
    (Sample2.pass [Sample2.fileShapes]
       [Sample.swCircle; Sample.swBoth; Sample.swFigure])
  = ([ {| V2.DiagPos := 100;
          V2.Message :=
            "shapes.go:1:1: exhaustiveness check failed for sum type 'Shape': missing cases for Square" |};
       {| V2.DiagPos := 140;
          V2.Message :=
            "shapes.go:1:1: exhaustiveness check failed for sum type 'Shape': missing cases for Square" |} ],
     [], Ok None).
Proof.
  set (decls := fst (fst (V2.findSumTypeDecls Sample2.env Sample2.fsys
                            Sample2.fset
                            [(Sample2.fileShapes, Sample.pkg)]))).
  rewrite (proj2 (V2_run_checks_every_switch Sample2.env Sample2.fsys
                    (Sample2.pass [Sample2.fileShapes]
                       [Sample.swCircle; Sample.swBoth; Sample.swFigure]))
             decls [] [] []
             (fst (findSumTypeDefs (map Sample2.toDecl decls)))).
  - reflexivity.
  - reflexivity.
  - vm_compute. discriminate.
  - reflexivity.
  - vm_compute. discriminate.
  - repeat (apply Forall_cons; [reflexivity|]). apply Forall_nil.
Defined.
